(** * msgraph-calendar-cleaner: the event-purge pipeline

    A shallow embedding of the three command-line programs of the
    repository,

    - [msgraph_cleaner.py]  (class [CalendarCleaner] and its [main]),
    - [cleaner.py]          (the earlier single-function script),
    - [google_cleaner.py]   (class [GoogleCalendarCleaner] and its [main]),

    and the properties of the purge pipeline: time-window resolution,
    paginated enumeration, semaphore-bounded deletion.

    Everything outside the repository (the HTTP servers, [pytz], the
    format parser of [datetime.strptime], the token machinery) is an
    explicit input of the model: a script of replies, a zone object, a
    parse function. *)

From Stdlib Require Import ZArith Lia Bool List Ascii String.
From stdpp Require Import base list strings relations.
Import ListNotations.

Set Warnings "-register-all".

Local Open Scope Z_scope.
Local Open Scope string_scope.

(** ** Python values

    The programs only handle JSON documents and what [json.loads] makes
    of them: [None], booleans, integers, strings, lists and dicts with
    string keys. A dict is kept as its list of items; [dict_lookup]
    returns the first item of a key. *)

Inductive json : Type :=
| JNull
| JBool (b : bool)
| JNum (n : Z)
| JStr (s : string)
| JArr (items : list json)
| JObj (fields : list (string * json)).

Inductive exn : Type :=
| KeyError (key : string)
| TypeError
| AttributeError
| JSONDecodeError
| OverflowError
| ValueError
| FileNotFoundError
| RequestException
| HttpError
| AuthException.

Fixpoint dict_lookup (fields : list (string * json)) (key : string) : option json :=
  match fields with
  | [] => None
  | (k, v) :: rest => if String.eqb k key then Some v else dict_lookup rest key
  end.

(** [x[key]] with a string key. *)
Definition subscript (x : json) (key : string) : json + exn :=
  match x with
  | JObj fields =>
      match dict_lookup fields key with
      | Some v => inl v
      | None => inr (KeyError key)
      end
  | _ => inr TypeError
  end.

(** [x.get(key)] and [x.get(key, default)]. *)
Definition get_method (x : json) (key : string) (default : json) : json + exn :=
  match x with
  | JObj fields =>
      match dict_lookup fields key with
      | Some v => inl v
      | None => inl default
      end
  | _ => inr AttributeError
  end.

(** Truth value of an object in [while x] and [not x]. *)
Definition truthy (x : json) : bool :=
  match x with
  | JNull => false
  | JBool b => b
  | JNum n => negb (n =? 0)%Z
  | JStr s => negb (String.eqb s "")
  | JArr items => match items with [] => false | _ => true end
  | JObj fields => match fields with [] => false | _ => true end
  end.

Fixpoint chars_of (s : string) : list json :=
  match s with
  | EmptyString => []
  | String c rest => JStr (String c EmptyString) :: chars_of rest
  end.

(** What [list.extend(x)] appends: the elements [x] iterates over. *)
Definition iterate (x : json) : list json + exn :=
  match x with
  | JArr items => inl items
  | JStr s => inl (chars_of s)
  | JObj fields => inl (map (fun kv => JStr (fst kv)) fields)
  | _ => inr TypeError
  end.

(** ** The listing endpoint

    One entry per call of [requests.get], in call order. *)

Inductive reply : Type :=
| Http (status : Z) (body : option json)
    (* a response; [body] is what [response.json()] parses, [None] when
       the text is not JSON *)
| NetFail.
    (* [requests.get] raised: no connection, unusable URL, ... *)

(** [Response.raise_for_status] raises [HTTPError] for the client and
    server error classes. *)
Definition raises_for_status (status : Z) : bool :=
  (400 <=? status)%Z && (status <? 600)%Z.

(** How a function of the program ends. [Starved] is the model's own:
    the loop asks for another reply and the script holds none. *)
Inductive outcome (A : Type) : Type :=
| Returned (a : A)
| Exited (code : Z)
| Raised (e : exn)
| Starved.
Arguments Returned {A} a.
Arguments Exited {A} code.
Arguments Raised {A} e.
Arguments Starved {A}.

Definition cap : Z := 9500.

(** One turn of the body of the [try]: [requests.get], [raise_for_status]
    (whose [HTTPError] the handler turns into [sys.exit(1)]),
    [response.json()], [data['value']] handed to [events.extend], and
    [data.get('@odata.nextLink')]. It yields the page and the next link. *)
Definition read_page (r : reply) : outcome (list json * json) :=
  match r with
  | NetFail => Raised RequestException
  | Http status body =>
      if raises_for_status status then Exited 1
      else
        match body with
        | None => Raised JSONDecodeError
        | Some data =>
            match subscript data "value" with
            | inr e => Raised e
            | inl v =>
                match iterate v with
                | inr e => Raised e
                | inl page =>
                    match get_method data "@odata.nextLink" JNull with
                    | inr e => Raised e
                    | inl link => Returned (page, link)
                    end
                end
            end
        end
  end.

(** The [while next_link:] loop of [CalendarCleaner.fetch_events]
    ([msgraph_cleaner.py]) and of [main] in [cleaner.py]; the two are the
    same statement for statement. *)
Fixpoint fetch_loop (script : list reply) (next_link : json) (events : list json)
  : outcome (list json) :=
  if negb (truthy next_link) then Returned events
  else if (cap <? Z.of_nat (length events))%Z then Returned events
  else
    match script with
    | [] => Starved
    | r :: script' =>
        match read_page r with
        | Returned (page, link) => fetch_loop script' link (events ++ page)
        | Exited code => Exited code
        | Raised e => Raised e
        | Starved => Starved
        end
    end.

Definition first_link (start_time_iso end_time_iso : string) : string :=
  "https://graph.microsoft.com/v1.0/me/calendarview?startDateTime=" +:+ start_time_iso
  +:+ "&endDateTime=" +:+ end_time_iso +:+ "&$top=500".

Definition fetch_events (script : list reply) (start_time_iso end_time_iso : string)
  : outcome (list json) :=
  fetch_loop script (JStr (first_link start_time_iso end_time_iso)) [].

(** [GoogleCalendarCleaner.fetch_events]: one [events().list(...).execute()]
    call (the client library raises its own [HttpError] on a status of
    300 and above), then [events_result.get('items', [])]; [len(events)] and the
    later [for event in events] need a sized iterable. Nothing reads
    [nextPageToken]. *)
Definition google_fetch_events (script : list reply) : outcome (list json) :=
  match script with
  | [] => Starved
  | NetFail :: _ => Raised RequestException
  | Http status body :: _ =>
      if (300 <=? status)%Z then Raised HttpError
      else
        match body with
        | None => Raised JSONDecodeError
        | Some events_result =>
            match get_method events_result "items" (JArr []) with
            | inr e => Raised e
            | inl events =>
                match iterate events with
                | inr e => Raised e
                | inl items => Returned items
                end
            end
        end
  end.

(** ** Dates and times

    [datetime.strptime(s, '%Y-%m-%d %H:%M')] yields a naive date-time
    with no seconds. *)

Record naive : Type := {
  year : Z; month : Z; day : Z; hour : Z; minute : Z
}.

(** The proleptic Gregorian day count of the [datetime] module. *)
Definition is_leap (y : Z) : bool :=
  (y mod 4 =? 0)%Z && (negb (y mod 100 =? 0)%Z || (y mod 400 =? 0)%Z).

Definition days_before_year (y : Z) : Z :=
  let y1 := y - 1 in y1 * 365 + y1 / 4 - y1 / 100 + y1 / 400.

Definition DAYS_BEFORE_MONTH (m : Z) : Z :=
  nth (Z.to_nat m) [0; 0; 31; 59; 90; 120; 151; 181; 212; 243; 273; 304; 334] 0.

Definition DAYS_IN_MONTH (m : Z) : Z :=
  nth (Z.to_nat m) [0; 31; 28; 31; 30; 31; 30; 31; 31; 30; 31; 30; 31] 0.

Definition days_before_month (y m : Z) : Z :=
  DAYS_BEFORE_MONTH m + (if (2 <? m)%Z && is_leap y then 1 else 0).

Definition days_in_month (y m : Z) : Z :=
  if (m =? 2)%Z && is_leap y then 29 else DAYS_IN_MONTH m.

Definition ymd2ord (y m d : Z) : Z :=
  days_before_year y + days_before_month y m + d.

Definition ord2ymd (ordinal : Z) : Z * Z * Z :=
  let n := ordinal - 1 in
  let n400 := n / 146097 in
  let n := n mod 146097 in
  let n100 := n / 36524 in
  let n := n mod 36524 in
  let n4 := n / 1461 in
  let n := n mod 1461 in
  let n1 := n / 365 in
  let n := n mod 365 in
  let y := n400 * 400 + 1 + n100 * 100 + n4 * 4 + n1 in
  if (n1 =? 4)%Z || (n100 =? 4)%Z then (y - 1, 12, 31)
  else
    let leapyear := (n1 =? 3)%Z && (negb (n4 =? 24)%Z || (n100 =? 3)%Z) in
    let m := Z.shiftr (n + 50) 5 in
    let preceding :=
      DAYS_BEFORE_MONTH m + (if (2 <? m)%Z && leapyear then 1 else 0) in
    if (n <? preceding)%Z then
      let m' := m - 1 in
      let preceding' :=
        preceding - (DAYS_IN_MONTH m' + (if (m' =? 2)%Z && leapyear then 1 else 0)) in
      (y, m', n - preceding' + 1)
    else (y, m, n - preceding + 1).

(** A point in time: seconds since 0001-01-01T00:00:00 UTC. The values
    of [start_time] and [end_time], which are aware date-times in UTC,
    are kept as such points; Python compares and prints them by it. *)
Definition seconds_of (dt : naive) : Z :=
  (ymd2ord (year dt) (month dt) (day dt) - 1) * 86400
  + hour dt * 3600 + minute dt * 60.

Definition max_ordinal : Z := 3652059.

(** [datetime - timedelta] raises [OverflowError] outside years 1..9999. *)
Definition representable (t : Z) : bool :=
  (0 <=? t)%Z && (t <? max_ordinal * 86400)%Z.

(** A [pytz] zone object, as far as the programs use it:
    [timezone.localize(naive)] attaches a UTC offset (in seconds) to a
    naive date-time, or raises. *)
Record tzinfo : Type := {
  localize : naive -> Z + exn
}.

(** [timezone.localize(dt).astimezone(pytz.utc)] *)
Definition to_utc (tz : tzinfo) (dt : naive) : Z + exn :=
  match localize tz dt with
  | inr e => inr e
  | inl utcoffset =>
      let t := seconds_of dt - utcoffset in
      if representable t then inl t else inr OverflowError
  end.

Definition digit (d : Z) : ascii :=
  (if (d =? 0)%Z then "0" else if (d =? 1)%Z then "1" else if (d =? 2)%Z then "2"
   else if (d =? 3)%Z then "3" else if (d =? 4)%Z then "4" else if (d =? 5)%Z then "5"
   else if (d =? 6)%Z then "6" else if (d =? 7)%Z then "7" else if (d =? 8)%Z then "8"
   else "9")%char.

(** ["%0wd" % n] for [0 <= n < 10^w]. *)
Fixpoint zero_padded (w : nat) (n : Z) : string :=
  match w with
  | O => ""
  | S w' => zero_padded w' (n / 10) +:+ String (digit (n mod 10)) ""
  end.

(** [datetime.isoformat()] of an aware date-time in UTC with no
    microseconds: the date, [T], the time, and the offset [+00:00]. *)
Definition isoformat (t : Z) : string :=
  let '(y, m, d) := ord2ymd (t / 86400 + 1) in
  let s := t mod 86400 in
  zero_padded 4 y +:+ "-" +:+ zero_padded 2 m +:+ "-" +:+ zero_padded 2 d +:+ "T"
  +:+ zero_padded 2 (s / 3600) +:+ ":" +:+ zero_padded 2 (s mod 3600 / 60) +:+ ":"
  +:+ zero_padded 2 (s mod 60) +:+ "+00:00".

(** [str.replace(old, new)] for a non-empty [old]: every occurrence,
    left to right, without overlap. [skip] counts the characters of a
    match still to be dropped. *)
Fixpoint replace_from (skip : nat) (old new s : string) : string :=
  match s with
  | EmptyString => ""
  | String c rest =>
      match skip with
      | S k => replace_from k old new rest
      | O =>
          if String.prefix old s
          then new +:+ replace_from (Nat.pred (String.length old)) old new rest
          else String c (replace_from 0 old new rest)
      end
  end.

Definition replace (old new s : string) : string := replace_from 0 old new s.

(** [sub in s] *)
Fixpoint contains (sub s : string) : bool :=
  String.prefix sub s ||
  match s with
  | EmptyString => false
  | String _ rest => contains sub rest
  end.

Definition ends_with (suffix s : string) : Prop := exists p, s = p +:+ suffix.

Record window : Type := {
  start_time : Z;
  end_time : Z
}.

Definition start_time_iso (w : window) : string :=
  replace "+00:00" "Z" (isoformat (start_time w)).
Definition end_time_iso (w : window) : string :=
  replace "+00:00" "Z" (isoformat (end_time w)).

(** The handler [except ValueError] exits with status 1; any other
    exception leaves [main]. *)
Definition except_ValueError {A : Type} (e : exn) : outcome A :=
  match e with
  | ValueError => Exited 1
  | _ => Raised e
  end.

(** The two [try] blocks that every [main] holds: zone lookup, then
    parsing and conversion of both bounds. [zones] is [pytz.timezone]
    ([None] for [UnknownTimeZoneError]) and [strptime] is
    [datetime.strptime(_, '%Y-%m-%d %H:%M')] ([None] for [ValueError]). *)
Definition resolve_window
    (zones : string -> option tzinfo) (strptime : string -> option naive)
    (timezone start stop : string) : outcome window :=
  match zones timezone with
  | None => Exited 1
  | Some tz =>
      match strptime start with
      | None => Exited 1
      | Some start_time_naive =>
          match strptime stop with
          | None => Exited 1
          | Some end_time_naive =>
              match to_utc tz start_time_naive with
              | inr e => except_ValueError e
              | inl t0 =>
                  match to_utc tz end_time_naive with
                  | inr e => except_ValueError e
                  | inl t1 => Returned {| start_time := t0; end_time := t1 |}
                  end
              end
          end
      end
  end.

(** *** A concrete zone table and parser, for running the model

    [pytz.utc] and fixed-offset zones, and the parser restricted to the
    canonical sixteen-character form [YYYY-MM-DD HH:MM]. *)

Definition fixed_zone (utcoffset : Z) : tzinfo :=
  {| localize := fun _ => inl utcoffset |}.

Definition sample_zones (name : string) : option tzinfo :=
  if String.eqb name "UTC" then Some (fixed_zone 0)
  else if String.eqb name "Etc/GMT-2" then Some (fixed_zone 7200)
  else None.

Definition digit_value (c : ascii) : option Z :=
  let n := Z.of_nat (nat_of_ascii c) in
  if (48 <=? n)%Z && (n <=? 57)%Z then Some (n - 48) else None.

Fixpoint number_of (acc : Z) (cs : list ascii) : option Z :=
  match cs with
  | [] => Some acc
  | c :: rest =>
      match digit_value c with
      | Some d => number_of (acc * 10 + d) rest
      | None => None
      end
  end.

Definition canonical_strptime (s : string) : option naive :=
  match list_ascii_of_string s with
  | [y1; y2; y3; y4; d1; m1; m2; d2; a1; a2; sp; h1; h2; col; n1; n2] =>
      if (Ascii.eqb d1 "-" && Ascii.eqb d2 "-" && Ascii.eqb sp " " && Ascii.eqb col ":")%char
      then
        match number_of 0 [y1; y2; y3; y4], number_of 0 [m1; m2],
              number_of 0 [a1; a2], number_of 0 [h1; h2], number_of 0 [n1; n2] with
        | Some y, Some m, Some d, Some h, Some mi =>
            if (1 <=? y)%Z && (1 <=? m)%Z && (m <=? 12)%Z && (1 <=? d)%Z
               && (d <=? days_in_month y m)%Z && (h <=? 23)%Z && (mi <=? 59)%Z
            then Some {| year := y; month := m; day := d; hour := h; minute := mi |}
            else None
        | _, _, _, _, _ => None
        end
      else None
  | _ => None
  end.

(** ** The deletion phase

    [delete_events] builds one coroutine per event and hands them all to
    [asyncio.gather]; the coroutines share one [asyncio.Semaphore(3)].
    The event loop is modelled as a transition system: a move advances
    one task over one suspension point, and any enabled move may come
    next. *)

Inductive flavour : Type := Graph | Google.

(** What comes back for the delete request of a task. *)
Inductive delete_reply : Type :=
| Status (code : Z) (text : string)
| Dropped.   (* [session.delete] raised *)

Inductive line : Type :=
| Deleted (event_id : json)
    (* [Deleted event {event_id}] *)
| CouldNotDelete (event_id : json) (status : Z) (text : string).
    (* [Could not delete event {event_id}: {status} {text}] *)

(** Where a [delete_event] coroutine stands. *)
Inductive pc : Type :=
| Created     (* not yet past [async with semaphore] *)
| InFlight    (* holds a slot; request issued, response awaited *)
| Sleeping    (* holds a slot; response seen, in [asyncio.sleep] *)
| Finished.   (* left [async with semaphore] *)

Record pool : Type := {
  permits : nat;        (* the value of the semaphore *)
  tasks : list pc;
  sent : list nat;      (* tasks whose delete request was issued, in order *)
  printed : list line;
  failed : bool         (* some coroutine has raised *)
}.

Inductive move : Type :=
| Acquire (i : nat)   (* enter the semaphore and issue the request *)
| Respond (i : nat)   (* the response, or the failure, of the request arrives *)
| Wake (i : nat)      (* the sleep ends; the slot is released *)
| Cancel (i : nat).   (* the task is cancelled once a sibling has raised *)

Definition holds_slot (s : pc) : nat :=
  match s with InFlight | Sleeping => 1%nat | _ => 0%nat end.

Definition outstanding (s : pc) : nat :=
  match s with InFlight => 1%nat | _ => 0%nat end.

(** [print] in the two branches on [response.status == 204];
    [google_cleaner.py] has [pass] in the first. *)
Definition report (fl : flavour) (event_id : json) (code : Z) (text : string) : list line :=
  if (code =? 204)%Z then
    match fl with Graph => [Deleted event_id] | Google => [] end
  else [CouldNotDelete event_id code text].

Section Fire.
Variable fl : flavour.
Variable ids : list json.
Variable replies : nat -> delete_reply.

Definition fire (m : move) (p : pool) : option pool :=
  match m with
  | Acquire i =>
      match tasks p !! i, permits p with
      | Some Created, S k =>
          Some {| permits := k; tasks := <[i := InFlight]> (tasks p);
                  sent := sent p ++ [i]; printed := printed p; failed := failed p |}
      | _, _ => None
      end
  | Respond i =>
      match tasks p !! i, ids !! i with
      | Some InFlight, Some event_id =>
          match replies i with
          | Status code text =>
              Some {| permits := permits p; tasks := <[i := Sleeping]> (tasks p);
                      sent := sent p; printed := printed p ++ report fl event_id code text;
                      failed := failed p |}
          | Dropped =>
              Some {| permits := S (permits p); tasks := <[i := Finished]> (tasks p);
                      sent := sent p; printed := printed p; failed := true |}
          end
      | _, _ => None
      end
  | Wake i =>
      match tasks p !! i with
      | Some Sleeping =>
          Some {| permits := S (permits p); tasks := <[i := Finished]> (tasks p);
                  sent := sent p; printed := printed p; failed := failed p |}
      | _ => None
      end
  | Cancel i =>
      if failed p then
        match tasks p !! i with
        | Some Finished | None => None
        | Some s =>
            Some {| permits := (holds_slot s + permits p)%nat;
                    tasks := <[i := Finished]> (tasks p);
                    sent := sent p; printed := printed p; failed := true |}
        end
      else None
  end.

Definition step (p p' : pool) : Prop := exists m, fire m p = Some p'.

(** [semaphore = asyncio.Semaphore(3)] and the list of fresh coroutines. *)
Definition initial : pool :=
  {| permits := 3; tasks := replicate (length ids) Created;
     sent := []; printed := []; failed := false |}.

Definition reachable (p : pool) : Prop := rtc step initial p.

(** Every coroutine has finished. When none of them has raised, this
    is where [gather] returns. *)
Definition complete (p : pool) : bool :=
  forallb (fun s => match s with Finished => true | _ => false end) (tasks p).

(** A run given by its moves. *)
Fixpoint play (ms : list move) (p : pool) : option pool :=
  match ms with
  | [] => Some p
  | m :: rest =>
      match fire m p with
      | Some p' => play rest p'
      | None => None
      end
  end.

(** The ids that went to the delete endpoint, in order. *)
Definition sent_ids (p : pool) : list json :=
  omap (fun i => ids !! i) (sent p).
End Fire.

Definition in_flight (p : pool) : nat := sum_list_with outstanding (tasks p).
Definition slots_held (p : pool) : nat := sum_list_with holds_slot (tasks p).

(** [[... event['id'] for event in events]]: evaluated in full before
    any coroutine starts. *)
Fixpoint event_ids (events : list json) : list json + exn :=
  match events with
  | [] => inl []
  | event :: rest =>
      match subscript event "id" with
      | inr e => inr e
      | inl event_id =>
          match event_ids rest with
          | inr e => inr e
          | inl l => inl (event_id :: l)
          end
      end
  end.

(** [delete_events] has no [return] statement: awaiting it gives [None]. *)
Definition delete_events_value (p : pool) : json := JNull.

(** The second loop of [main] in [cleaner.py], after the [gather]:
    [for event in events: ... requests.delete(delete_url, ...)], one
    blocking request per event. It yields the ids sent, the lines
    printed and how the loop ends. *)
Fixpoint delete_in_turn (ids : list json) (replies : list delete_reply)
  : list json * list line * outcome unit :=
  match ids with
  | [] => ([], [], Returned tt)
  | event_id :: rest =>
      match replies with
      | [] => ([], [], Starved)
      | Dropped :: _ => ([event_id], [], Raised RequestException)
      | Status code text :: replies' =>
          let '(s, l, o) := delete_in_turn rest replies' in
          (event_id :: s, (report Graph event_id code text ++ l)%list, o)
      end
  end.

(** One run of the deletion block of [cleaner.py]: a complete run of
    the [gather], then the loop; [log] is every id that went to the
    delete endpoint, in order. *)
Definition cleaner_deletion (ids : list json) (replies : nat -> delete_reply)
    (replies2 : list delete_reply) (log : list json) : Prop :=
  exists p, reachable Graph ids replies p /\ complete p = true /\ failed p = false
    /\ log = (sent_ids ids p ++ fst (fst (delete_in_turn ids replies2)))%list.

(** The report of the specification's data model, [PurgeReport]:
    [deletedCount], [failedCount] and the list of failures. No source
    file declares such a value; [as_report] reads one off a Python value
    that carries the three fields. *)
Record PurgeReport : Type := {
  deletedCount : Z;
  failedCount : Z;
  failures : list json
}.

Definition as_report (v : json) : option PurgeReport :=
  match subscript v "deletedCount", subscript v "failedCount", subscript v "failures" with
  | inl (JNum d), inl (JNum f), inl (JArr l) =>
      Some {| deletedCount := d; failedCount := f; failures := l |}
  | _, _, _ => None
  end.

Definition is_deleted (l : line) : bool :=
  match l with Deleted _ => true | _ => false end.
Definition is_failure (l : line) : bool :=
  match l with CouldNotDelete _ _ _ => true | _ => false end.

(** ** The three [main] functions

    The command line after [argparse], and everything a run reads from
    outside the program. *)

Record arguments : Type := {
  arg_start : option string;
  arg_end : option string;
  arg_timezone : string;     (* default [Europe/Helsinki] filled in *)
  arg_clean : bool
}.

Record world : Type := {
  zones : string -> option tzinfo;      (* [pytz.timezone] *)
  strptime : string -> option naive;    (* [datetime.strptime(_, '%Y-%m-%d %H:%M')] *)
  sign_in : bool;                       (* a token is acquired *)
  cache_changed : bool;                 (* [cache.has_state_changed] after sign-in *)
  listing : list reply;                 (* replies of the listing endpoint *)
  token_file : bool;                    (* the credential cache file exists *)
  stored_token_valid : bool             (* [token.json], when there, holds valid credentials *)
}.

(** How [main] goes on after enumeration, or ends before it. *)
Inductive ending : Type :=
| Exit (code : Z)               (* [sys.exit(code)] *)
| Crash (e : exn)               (* an exception leaves [main] *)
| Purge (events : list json)    (* the deletion phase is entered with [events] *)
| Stalled.                      (* the script of replies ran out *)

Record run : Type := {
  ended : ending;
  token_file_after : bool
}.

(** [not args.start]: [None] and the empty string are false. *)
Definition given (o : option string) : bool :=
  match o with
  | Some s => negb (String.eqb s "")
  | None => false
  end.

Definition text_of (o : option string) : string :=
  match o with Some s => s | None => "" end.

Definition after_fetch (o : outcome (list json)) : ending :=
  match o with
  | Returned events => Purge events
  | Exited code => Exit code
  | Raised e => Crash e
  | Starved => Stalled
  end.

(** [CalendarCleaner.clean_cache(self)]: remove the file if it exists.
    [self] is [None] when the function is called with no instance. *)
Definition clean_cache (self : option unit) (file : bool) : outcome bool :=
  match self with
  | None => Raised TypeError     (* missing 1 required positional argument: 'self' *)
  | Some _ => Returned false
  end.

(** [main] of [msgraph_cleaner.py]. *)
Definition msgraph_main (w : world) (a : arguments) : run :=
  if negb (arg_clean a) && (negb (given (arg_start a)) || negb (given (arg_end a))) then
    {| ended := Exit 1; token_file_after := token_file w |}
  else if arg_clean a then
    (* [CalendarCleaner.clean_cache()]: called on the class *)
    match clean_cache None (token_file w) with
    | Returned file => {| ended := Exit 0; token_file_after := file |}
    | Exited code => {| ended := Exit code; token_file_after := token_file w |}
    | Raised e => {| ended := Crash e; token_file_after := token_file w |}
    | Starved => {| ended := Stalled; token_file_after := token_file w |}
    end
  else
    match resolve_window (zones w) (strptime w) (arg_timezone a)
            (text_of (arg_start a)) (text_of (arg_end a)) with
    | Exited code => {| ended := Exit code; token_file_after := token_file w |}
    | Raised e => {| ended := Crash e; token_file_after := token_file w |}
    | Starved => {| ended := Stalled; token_file_after := token_file w |}
    | Returned win =>
        if sign_in w then
          {| ended := after_fetch
                        (fetch_events (listing w) (start_time_iso win) (end_time_iso win));
             token_file_after := token_file w || cache_changed w |}
        else {| ended := Crash AuthException; token_file_after := token_file w |}
    end.

(** [main] of [cleaner.py]: [--start] and [--end] are [required=True]
    ([argparse] exits with status 2 without them), there is no
    [--clean], and a failed sign-in is [sys.exit(1)]. *)
Definition cleaner_main (w : world) (a : arguments) : run :=
  match arg_start a, arg_end a with
  | Some start, Some stop =>
      match resolve_window (zones w) (strptime w) (arg_timezone a) start stop with
      | Exited code => {| ended := Exit code; token_file_after := token_file w |}
      | Raised e => {| ended := Crash e; token_file_after := token_file w |}
      | Starved => {| ended := Stalled; token_file_after := token_file w |}
      | Returned win =>
          if sign_in w then
            {| ended := after_fetch
                          (fetch_events (listing w) (start_time_iso win) (end_time_iso win));
               token_file_after := token_file w || cache_changed w |}
          else {| ended := Exit 1; token_file_after := token_file w |}
      end
  | _, _ => {| ended := Exit 2; token_file_after := token_file w |}
  end.

(** [GoogleCalendarCleaner.clean_token_cache()], a static method:
    [os.remove('token.json')], which raises when there is no file. *)
Definition clean_token_cache (file : bool) : outcome bool :=
  if file then Returned false else Raised FileNotFoundError.

(** [GoogleCalendarCleaner(calendar_name=...)], whose [authenticate()]
    reads [token.json] when it is there and uses valid credentials as
    they are; otherwise a refresh or the sign-in flow has to succeed
    ([sign_in w]), and the file is written. It yields whether the
    constructor returned, and whether the file exists afterwards. *)
Definition google_sign_in (w : world) (file : bool) : bool * bool :=
  if file && stored_token_valid w then (true, file)
  else if sign_in w then (true, true)
  else (false, file).

(** [main] of [google_cleaner.py]. After [clean_token_cache()] comes the
    expression statement [sys.exit], which names the function and does
    not call it: control goes on to the next [if]. [file] is whether
    [token.json] is there at that point. *)
Definition google_main_after_clean (w : world) (a : arguments) (file : bool) : run :=
  if negb (given (arg_start a)) || negb (given (arg_end a)) then
    {| ended := Exit 1; token_file_after := file |}
  else
    match resolve_window (zones w) (strptime w) (arg_timezone a)
            (text_of (arg_start a)) (text_of (arg_end a)) with
    | Exited code => {| ended := Exit code; token_file_after := file |}
    | Raised e => {| ended := Crash e; token_file_after := file |}
    | Starved => {| ended := Stalled; token_file_after := file |}
    | Returned win =>
        let '(signed_in, file') := google_sign_in w file in
        if signed_in then
          {| ended := after_fetch (google_fetch_events (listing w));
             token_file_after := file' |}
        else {| ended := Crash AuthException; token_file_after := file' |}
    end.

Definition google_main (w : world) (a : arguments) : run :=
  if arg_clean a then
    match clean_token_cache (token_file w) with
    | Returned file => google_main_after_clean w a file
    | Exited code => {| ended := Exit code; token_file_after := token_file w |}
    | Raised e => {| ended := Crash e; token_file_after := token_file w |}
    | Starved => {| ended := Stalled; token_file_after := token_file w |}
    end
  else google_main_after_clean w a (token_file w).

(** Whether a run enters the deletion phase. *)
Definition purges (r : run) : bool :=
  match ended r with Purge _ => true | _ => false end.

(** ** Quantities and predicates the properties speak of *)

(** The number of events a reply contributes when it is read. *)
Definition page_size (r : reply) : Z :=
  match read_page r with
  | Returned (page, _) => Z.of_nat (length page)
  | _ => 0
  end.

(** The run gets as far as enumeration, with the window [win]. *)
Definition enumerates (w : world) (a : arguments) (win : window) : Prop :=
  arg_clean a = false /\ given (arg_start a) = true /\ given (arg_end a) = true
  /\ resolve_window (zones w) (strptime w) (arg_timezone a)
       (text_of (arg_start a)) (text_of (arg_end a)) = Returned win
  /\ sign_in w = true.

(** What a reply adds to the batch, the cursor it carries, and whether
    it reads as a page at all. *)
Definition page_of (r : reply) : list json :=
  match read_page r with
  | Returned (page, _) => page
  | _ => []
  end.

Definition cursor_of (r : reply) : json :=
  match read_page r with
  | Returned (_, link) => link
  | _ => JNull
  end.

Definition is_page (r : reply) : bool :=
  match read_page r with
  | Returned _ => true
  | _ => false
  end.

(** No character of [s] is a plus sign. *)
Fixpoint plus_free (s : string) : Prop :=
  match s with
  | EmptyString => True
  | String c rest => c <> "+"%char /\ plus_free rest
  end.

(** The ids of the tasks whose response has been seen. *)
Definition past_response (s : pc) : bool :=
  match s with Sleeping | Finished => true | _ => false end.

Fixpoint responded (ts : list pc) (ids : list json) : list json :=
  match ts, ids with
  | s :: ts', event_id :: ids' =>
      if past_response s then event_id :: responded ts' ids' else responded ts' ids'
  | _, _ => []
  end.

(** What a task has left to do: a bound on the moves it can still make. *)
Definition remaining (s : pc) : nat :=
  match s with Created => 3%nat | InFlight => 2%nat | Sleeping => 1%nat | Finished => 0%nat end.

Definition work_left (p : pool) : nat := sum_list_with remaining (tasks p).

(** ** Sample data for running the model *)

Definition event (event_id : string) : json :=
  JObj [("id", JStr event_id); ("subject", JStr "meeting")].

(** A listing page of [n] events with a next link. *)
Definition full_page (n : nat) : reply :=
  Http 200 (Some (JObj [("value", JArr (repeat (event "E") n));
                        ("@odata.nextLink", JStr "https://graph.microsoft.com/next")])).

Definition last_page (events : list json) : reply :=
  Http 200 (Some (JObj [("value", JArr events)])).

Definition always_204 (i : nat) : delete_reply := Status 204 "".

Definition sample_world (script : list reply) (file : bool) : world :=
  {| zones := sample_zones; strptime := canonical_strptime; sign_in := true;
     cache_changed := false; listing := script; token_file := file;
     stored_token_valid := true |}.

Definition purge_arguments (clean : bool) : arguments :=
  {| arg_start := Some "2023-01-01 00:00"; arg_end := Some "2023-01-02 00:00";
     arg_timezone := "UTC"; arg_clean := clean |}.

Definition clean_arguments : arguments :=
  {| arg_start := None; arg_end := None;
     arg_timezone := "Europe/Helsinki"; arg_clean := true |}.

(** A page of the Google listing, with or without [nextPageToken]. *)
Definition google_page (events : list json) (token : option string) : reply :=
  Http 200 (Some (JObj (("items", JArr events) ::
                        match token with
                        | Some t => [("nextPageToken", JStr t)]
                        | None => []
                        end))).

(** A batch of five, and its state once three coroutines are past the
    semaphore. *)
Definition five_ids : list json :=
  [JStr "a"; JStr "b"; JStr "c"; JStr "d"; JStr "e"].

Definition three_acquired : pool :=
  {| permits := 0; tasks := [InFlight; InFlight; InFlight; Created; Created];
     sent := [0; 1; 2]%nat; printed := []; failed := false |}.

(** ** Signing in

    What the programs do around the token libraries. As with the
    listing endpoint, what the library hands back is an input. *)

(** The [msal.PublicClientApplication], by the values its calls return
    in a run. *)
Record msal_app : Type := {
  get_accounts : list json;
  acquire_token_silent : json;          (* for [accounts[0]]; [None] when the cache has no token *)
  initiate_device_flow : json;
  acquire_token_by_device_flow : json
}.

(** [key in x] for a string [key]: a key of a dict, a substring of a
    string, an element of a list. *)
Definition has_key (key : string) (x : json) : bool + exn :=
  match x with
  | JObj fields =>
      inl (match dict_lookup fields key with Some _ => true | None => false end)
  | JStr s => inl (contains key s)
  | JArr items =>
      inl (existsb (fun v => match v with JStr s => String.eqb s key | _ => false end) items)
  | _ => inr TypeError
  end.

(** [CalendarCleaner.acquire_token] of [msgraph_cleaner.py]. The result
    comes with a flag: whether [save_cache] was called. *)
Definition msgraph_acquire_token (app : msal_app) : outcome json * bool :=
  let result : json + outcome json :=
    match get_accounts app with
    | _ :: _ => inl (acquire_token_silent app)
    | [] =>
        let flow := initiate_device_flow app in
        match has_key "user_code" flow with
        | inr e => inr (Raised e)
        | inl false => inr (Raised AuthException)
        | inl true =>
            match subscript flow "message" with
            | inr e => inr (Raised e)
            | inl _ => inl (acquire_token_by_device_flow app)
            end
        end
    end in
  match result with
  | inr o => (o, false)
  | inl result =>
      match has_key "access_token" result with
      | inr e => (Raised e, false)
      | inl true =>
          (* [self.save_cache()], then [return result['access_token']] *)
          match subscript result "access_token" with
          | inl token => (Returned token, true)
          | inr e => (Raised e, true)
          end
      | inl false =>
          match get_method result "error" JNull with
          | inr e => (Raised e, false)
          | inl _ => (Raised AuthException, false)
          end
      end
  end.

(** The same steps as [main] of [cleaner.py] has them: [result] starts
    as [None], the device flow is entered on [if not result], and the
    two failures are [sys.exit(1)]. *)
Definition cleaner_acquire_token (app : msal_app) : outcome json * bool :=
  let silent :=
    match get_accounts app with
    | _ :: _ => acquire_token_silent app
    | [] => JNull
    end in
  let result : json + outcome json :=
    if truthy silent then inl silent
    else
      let flow := initiate_device_flow app in
      match has_key "user_code" flow with
      | inr e => inr (Raised e)
      | inl false => inr (Exited 1)
      | inl true =>
          match subscript flow "message" with
          | inr e => inr (Raised e)
          | inl _ => inl (acquire_token_by_device_flow app)
          end
      end in
  match result with
  | inr o => (o, false)
  | inl result =>
      match has_key "access_token" result with
      | inr e => (Raised e, false)
      | inl true =>
          (* [token = result['access_token']], then [save_cache(cache)] *)
          match subscript result "access_token" with
          | inl token => (Returned token, true)
          | inr e => (Raised e, false)
          end
      | inl false =>
          match get_method result "error" JNull with
          | inr e => (Raised e, false)
          | inl _ => (Exited 1, false)
          end
      end
  end.

(** The attributes of a Google [Credentials] object that
    [authenticate] reads. *)
Record credentials : Type := {
  valid : bool;
  expired : bool;
  refresh_token : bool;     (* a refresh token is present *)
  bearer : string
}.

Section GoogleAuth.
Variable from_authorized_user_file : string -> credentials + exn.
Variable to_json : credentials -> string.
Variable refresh : credentials -> credentials + exn.   (* [creds.refresh(Request())] *)
Variable run_local_server : credentials + exn.         (* the installed-app flow *)

(** [GoogleCalendarCleaner.authenticate]; [file] is the text of
    [token.json], if there is one. It yields the outcome and the file
    afterwards. *)
Definition authenticate (file : option string) : outcome credentials * option string :=
  let loaded : option credentials + exn :=
    match file with
    | None => inl None
    | Some text =>
        match from_authorized_user_file text with
        | inl c => inl (Some c)
        | inr e => inr e
        end
    end in
  match loaded with
  | inr e => (Raised e, file)
  | inl creds =>
      match creds with
      | Some c =>
          if valid c then (Returned c, file)
          else
            match (if expired c && refresh_token c then refresh c else run_local_server) with
            | inr e => (Raised e, file)
            | inl c' => (Returned c', Some (to_json c'))
            end
      | None =>
          match run_local_server with
          | inr e => (Raised e, file)
          | inl c' => (Returned c', Some (to_json c'))
          end
      end
  end.
End GoogleAuth.

(** [calendar['summary'] == calendar_name], where the name is a string
    or [None]. *)
Definition equals_name (v : json) (name : option string) : bool :=
  match v, name with
  | JStr s, Some n => String.eqb s n
  | JNull, None => true
  | _, _ => false
  end.

(** The [for calendar in ...] loop of [get_calendar_id]. *)
Fixpoint find_calendar (calendars : list json) (name : option string) : outcome json :=
  match calendars with
  | [] => Returned (JStr "primary")
  | calendar :: rest =>
      match subscript calendar "summary" with
      | inr e => Raised e
      | inl summary =>
          if equals_name summary name then
            match subscript calendar "id" with
            | inr e => Raised e
            | inl calendar_id => Returned calendar_id
            end
          else find_calendar rest name
      end
  end.

(** [GoogleCalendarCleaner.get_calendar_id]; [calendar_list] is what
    [calendarList().list().execute()] returned. *)
Definition get_calendar_id (calendar_list : json) (calendar_name : option string)
  : outcome json :=
  match subscript calendar_list "items" with
  | inr e => Raised e
  | inl items =>
      match iterate items with
      | inr e => Raised e
      | inl calendars => find_calendar calendars calendar_name
      end
  end.

(** ** What a run of the deletion phase prints *)

(** The lines of one task once its response is in. *)
Definition lines_for (fl : flavour) (r : delete_reply) (event_id : json) : list line :=
  match r with
  | Status code text => report fl event_id code text
  | Dropped => []
  end.

(** The lines of the tasks past their response, from task [i] on. *)
Fixpoint lines_seen (fl : flavour) (replies : nat -> delete_reply) (i : nat)
    (ts : list pc) (ids : list json) : list line :=
  match ts, ids with
  | s :: ts', event_id :: ids' =>
      ((if past_response s then lines_for fl (replies i) event_id else [])
       ++ lines_seen fl replies (S i) ts' ids')%list
  | _, _ => []
  end.

(** The lines of the whole batch, in the order of the events. *)
Fixpoint all_lines (fl : flavour) (replies : nat -> delete_reply) (i : nat)
    (ids : list json) : list line :=
  match ids with
  | [] => []
  | event_id :: ids' =>
      (lines_for fl (replies i) event_id ++ all_lines fl replies (S i) ids')%list
  end.

(** The run of [main] of [google_cleaner.py] gets as far as its one
    listing call. *)
Definition google_enumerates (w : world) (a : arguments) (win : window) : Prop :=
  (arg_clean a = false \/ token_file w = true)
  /\ given (arg_start a) = true /\ given (arg_end a) = true
  /\ resolve_window (zones w) (strptime w) (arg_timezone a)
       (text_of (arg_start a)) (text_of (arg_end a)) = Returned win
  /\ sign_in w = true.

(** Two worlds that differ at most in what comes after the resolver:
    the sign-in and the listing. *)
Definition same_before_sign_in (w w' : world) : Prop :=
  zones w = zones w' /\ strptime w = strptime w' /\ token_file w = token_file w'.



(** ** More sample data *)

Definition sample_app_silent : msal_app :=
  {| get_accounts := [JObj [("id", JStr "test_account")]];
     acquire_token_silent := JObj [("access_token", JStr "test_token")];
     initiate_device_flow := JObj [("user_code", JStr "test_code"); ("message", JStr "test_message")];
     acquire_token_by_device_flow := JObj [("access_token", JStr "test_token")] |}.

(** An account is cached but no token can be had silently. *)
Definition sample_app_stale : msal_app :=
  {| get_accounts := [JObj [("id", JStr "test_account")]];
     acquire_token_silent := JNull;
     initiate_device_flow := JObj [("user_code", JStr "test_code"); ("message", JStr "test_message")];
     acquire_token_by_device_flow := JObj [("access_token", JStr "fresh_token")] |}.

Definition sample_credentials (ok : bool) : credentials :=
  {| valid := ok; expired := negb ok; refresh_token := true; bearer := "ya29" |}.

(** A token file with expired credentials, which a refresh renews. *)
Definition stale_token_file (text : string) : credentials + exn :=
  inl (sample_credentials false).
Definition sample_to_json (c : credentials) : string :=
  if valid c then "{valid}" else "{expired}".
Definition sample_refresh (c : credentials) : credentials + exn :=
  inl (sample_credentials true).

Definition sample_calendars : json :=
  JObj [("items", JArr [JObj [("summary", JStr "Home"); ("id", JStr "home@group")];
                        JObj [("summary", JStr "Work"); ("id", JStr "work@group")];
                        JObj [("summary", JStr "Work"); ("id", JStr "other@group")]])].

Definition mixed_replies (i : nat) : delete_reply :=
  if Nat.even i then Status 204 "" else Status 404 "Not Found".

Definition always_404 (i : nat) : delete_reply := Status 404 "Not Found".

(** * Properties *)

(** ** Enumeration *)

Lemma fetch_loop_no_cursor script link events :
  truthy link = false -> fetch_loop script link events = Returned events.
Proof. intros H. destruct script; simpl; rewrite H; reflexivity. Qed.

Lemma fetch_loop_over_cap script link events :
  cap < Z.of_nat (length events) -> fetch_loop script link events = Returned events.
Proof.
  intros H. apply Z.ltb_lt in H.
  destruct script; simpl; rewrite H; destruct (truthy link); reflexivity.
Qed.

(** A loop that asks for more than [pre] holds goes on, with the replies
    that follow, from a state in which both loop tests pass. *)
Lemma fetch_loop_starved pre :
  forall link events,
    fetch_loop pre link events = Starved ->
    exists link' events',
      truthy link' = true /\ Z.of_nat (length events') <= cap /\
      forall post, fetch_loop (pre ++ post) link events = fetch_loop post link' events'.
Proof.
  induction pre as [|r pre IH]; intros link events H.
  - simpl in H.
    destruct (truthy link) eqn:Ht; simpl in H; [|discriminate].
    destruct (cap <? Z.of_nat (length events))%Z eqn:Hc; [discriminate|].
    exists link, events. split; [assumption|]. split; [apply Z.ltb_ge; assumption|].
    reflexivity.
  - simpl in H.
    destruct (truthy link) eqn:Ht; simpl in H; [|discriminate].
    destruct (cap <? Z.of_nat (length events))%Z eqn:Hc; [discriminate|].
    destruct (read_page r) as [[page link1]| | |] eqn:Hr; try discriminate.
    + destruct (IH _ _ H) as (link' & events' & H1 & H2 & H3).
      exists link', events'. split; [assumption|]. split; [assumption|].
      intros post. simpl. rewrite Ht, Hc, Hr. simpl. apply H3.
    + destruct r as [status body|]; simpl in Hr.
      * destruct (raises_for_status status); [discriminate|].
        destruct body as [data|]; [|discriminate].
        destruct (subscript data "value"); [|discriminate].
        destruct (iterate j); [|discriminate].
        destruct (get_method data "@odata.nextLink" JNull); discriminate.
      * discriminate.
Qed.

(** Replies after the point where the loop has ended are never read. *)
Lemma fetch_loop_ignores_rest pre :
  forall link events post,
    fetch_loop pre link events <> Starved ->
    fetch_loop (pre ++ post) link events = fetch_loop pre link events.
Proof.
  induction pre as [|r pre IH]; intros link events post H.
  - rewrite app_nil_l.
    destruct (truthy link) eqn:Ht.
    + destruct (cap <? Z.of_nat (length events))%Z eqn:Hc.
      * apply Z.ltb_lt in Hc. rewrite !fetch_loop_over_cap by assumption. reflexivity.
      * exfalso. apply H. simpl. rewrite Ht, Hc. reflexivity.
    + rewrite !fetch_loop_no_cursor by assumption. reflexivity.
  - simpl in *. destruct (truthy link); simpl in *; [|reflexivity].
    destruct (cap <? Z.of_nat (length events))%Z; [reflexivity|].
    destruct (read_page r) as [[page link1]| | |]; try reflexivity.
    apply IH. assumption.
Qed.

Lemma fetch_loop_bound script :
  forall link events p batch,
    Forall (fun r => page_size r <= p) script ->
    Z.of_nat (length events) <= cap + p ->
    fetch_loop script link events = Returned batch ->
    Z.of_nat (length batch) <= cap + p.
Proof.
  induction script as [|r script IH]; intros link events p batch Hp Hev H.
  - simpl in H. destruct (truthy link); simpl in H.
    + destruct (cap <? Z.of_nat (length events))%Z; [|discriminate].
      injection H as <-. assumption.
    + injection H as <-. assumption.
  - simpl in H. destruct (truthy link); simpl in H.
    + destruct (cap <? Z.of_nat (length events))%Z eqn:Hc.
      * injection H as <-. assumption.
      * apply Z.ltb_ge in Hc. inversion Hp as [|? ? Hr Hrest]; subst.
        unfold page_size in Hr.
        destruct (read_page r) as [[page link1]| | |]; try discriminate.
        apply (IH link1 (events ++ page)%list p batch Hrest); [|assumption].
        rewrite length_app, Nat2Z.inj_add. lia.
    + injection H as <-. assumption.
Qed.

Lemma last_cons_default {A : Type} (a d : A) (l : list A) :
  List.last (a :: l) d = List.last l a.
Proof.
  revert a d. induction l as [|b l IH]; intros a d; [reflexivity|].
  change (List.last (a :: b :: l) d) with (List.last (b :: l) d).
  rewrite !IH. reflexivity.
Qed.

(** The batch is what the pages read hold, in the order of the replies;
    the pages read are an initial run of the replies, and the loop ended
    on a missing cursor or on the cap. *)
Lemma fetch_loop_concat script :
  forall link events batch,
    fetch_loop script link events = Returned batch ->
    exists used rest,
      script = (used ++ rest)%list /\ forallb is_page used = true /\
      batch = (events ++ concat (page_of <$> used))%list /\
      (truthy (List.last (cursor_of <$> used) link) = false
       \/ cap < Z.of_nat (length batch)).
Proof.
  induction script as [|r script IH]; intros link events batch H.
  - exists [], []. simpl in *. rewrite app_nil_r.
    destruct (truthy link) eqn:Ht; simpl in H.
    + destruct (cap <? Z.of_nat (length events))%Z eqn:Hc; [|discriminate].
      injection H as <-. apply Z.ltb_lt in Hc. auto.
    + injection H as <-. auto.
  - simpl in H. destruct (truthy link) eqn:Ht; simpl in H.
    + destruct (cap <? Z.of_nat (length events))%Z eqn:Hc.
      * injection H as <-. exists [], (r :: script). simpl. rewrite app_nil_r.
        apply Z.ltb_lt in Hc. auto.
      * destruct (read_page r) as [[page link1]| | |] eqn:Hr; try discriminate.
        destruct (IH _ _ _ H) as (used & rest & -> & Hu & -> & Hstop).
        exists (r :: used), rest. split; [reflexivity|].
        split; [simpl; unfold is_page at 1; rewrite Hr; exact Hu|].
        split.
        -- simpl. unfold page_of at 2. rewrite Hr, app_assoc. reflexivity.
        -- rewrite fmap_cons, last_cons_default. unfold cursor_of at 2. rewrite Hr.
           exact Hstop.
    + injection H as <-. exists [], (r :: script). simpl. rewrite app_nil_r. auto.
Qed.

(** Replies that all read as pages never make the loop exit or raise. *)
Lemma fetch_loop_pages_total script :
  forall link events,
    forallb is_page script = true ->
    (exists batch, fetch_loop script link events = Returned batch)
    \/ fetch_loop script link events = Starved.
Proof.
  induction script as [|r script IH]; intros link events H; simpl.
  - destruct (truthy link); simpl; [|eauto].
    destruct (cap <? Z.of_nat (length events))%Z; eauto.
  - destruct (truthy link); simpl; [|eauto].
    destruct (cap <? Z.of_nat (length events))%Z; [eauto|].
    simpl in H. apply andb_true_iff in H as [Hr Hs]. unfold is_page in Hr.
    destruct (read_page r) as [[page link1]| | |]; try discriminate.
    apply IH. assumption.
Qed.

Lemma main_enumerates w a win :
  enumerates w a win ->
  ended (msgraph_main w a)
    = after_fetch (fetch_events (listing w) (start_time_iso win) (end_time_iso win))
  /\ ended (cleaner_main w a)
    = after_fetch (fetch_events (listing w) (start_time_iso win) (end_time_iso win)).
Proof.
  intros (Hc & Hs & He & Hr & Hi). split.
  - unfold msgraph_main. rewrite Hc, Hs, He, Hr, Hi. reflexivity.
  - unfold cleaner_main.
    destruct (arg_start a) as [start|]; [|discriminate].
    destruct (arg_end a) as [stop|]; [|discriminate].
    simpl in Hr. rewrite Hr, Hi. reflexivity.
Qed.

Lemma sample_enumerates script file :
  enumerates (sample_world script file) (purge_arguments false)
    {| start_time := 63808128000; end_time := 63808214400 |}.
Proof. unfold enumerates. repeat split. Qed.

(** C4, as stated, fails: twenty-one pages of 500 events, each with a
    next link. After nineteen pages the count is 9500, which is not
    above the cap, so a twentieth page is fetched and appended whole:
    the batch returned holds 10000 events. *)
Lemma batch_exceeds_cap :
  match fetch_events (repeat (full_page 500) 21) "2023-01-01T00:00:00Z" "2023-01-02T00:00:00Z" with
  | Returned batch => Z.of_nat (length batch) = 10000 /\ cap < Z.of_nat (length batch)
  | _ => False
  end.
Proof. vm_compute. split; reflexivity. Qed.

(** C4, amended: once more than 9500 events are accumulated the loop
    fetches nothing further, whatever link is pending and whatever
    replies remain; and since the test comes before each fetch and a
    page is appended whole, a batch returned holds at most 9500 + p
    events when no page holds more than p. *)
Theorem enumeration_stops_past_cap script start_iso end_iso p batch :
  Forall (fun r => page_size r <= p) script ->
  0 <= p ->
  fetch_events script start_iso end_iso = Returned batch ->
  Z.of_nat (length batch) <= cap + p
  /\ forall rest link events,
       cap < Z.of_nat (length events) ->
       fetch_loop rest link events = Returned events.
Proof.
  intros Hp Hp0 H. split.
  - eapply fetch_loop_bound; [exact Hp| |exact H]. simpl. unfold cap. lia.
  - intros rest link events Hc. apply fetch_loop_over_cap. assumption.
Qed.

Lemma enumeration_stops_past_cap_witness :
  Z.of_nat (length [event "E"; event "E"; event "C"]) <= cap + 500.
Proof.
  refine (proj1 (enumeration_stops_past_cap
                   [full_page 2; last_page [event "C"]] "s" "e" 500
                   [event "E"; event "E"; event "C"] _ _ _)).
  - repeat constructor; vm_compute; discriminate.
  - lia.
  - reflexivity.
Defined.

(** C5, as stated, fails: the only test of the status is
    [raise_for_status], which raises for 400..599. A reply with another
    status that is not a success, here 302, is read as a page: with a
    body that holds [value], the run goes on to the deletion phase with
    the events of the earlier page and of this one. *)
Lemma redirect_status_read_as_page :
  raises_for_status 302 = false
  /\ ended (msgraph_main
              (sample_world [full_page 2;
                             Http 302 (Some (JObj [("value", JArr [event "C"])]))] true)
              (purge_arguments false))
     = Purge [event "E"; event "E"; event "C"]
  /\ ended (cleaner_main
              (sample_world [full_page 2;
                             Http 302 (Some (JObj [("value", JArr [event "C"])]))] true)
              (purge_arguments false))
     = Purge [event "E"; event "E"; event "C"].
Proof. repeat split. Qed.

(** C5, amended: when a fetch of the listing endpoint comes back with
    an error status, one of 400..599, for which [raise_for_status]
    raises, after any number of pages read without trouble,
    [fetch_events] returns nothing: the process exits with status 1, in
    [msgraph_cleaner.py] and in [cleaner.py], and the deletion phase is
    not entered. *)
Theorem listing_error_aborts_run w a win pre status body post :
  enumerates w a win ->
  listing w = (pre ++ Http status body :: post)%list ->
  fetch_events pre (start_time_iso win) (end_time_iso win) = Starved ->
  raises_for_status status = true ->
  fetch_events (listing w) (start_time_iso win) (end_time_iso win) = Exited 1
  /\ ended (msgraph_main w a) = Exit 1 /\ purges (msgraph_main w a) = false
  /\ ended (cleaner_main w a) = Exit 1 /\ purges (cleaner_main w a) = false.
Proof.
  intros He Hl Hpre Hs.
  assert (Hf : fetch_events (listing w) (start_time_iso win) (end_time_iso win) = Exited 1).
  { unfold fetch_events in *. rewrite Hl.
    destruct (fetch_loop_starved _ _ _ Hpre) as (link' & events' & Ht & Hc & Hgo).
    rewrite Hgo. simpl. rewrite Ht. simpl.
    apply Z.ltb_ge in Hc. rewrite Hc, Hs. reflexivity. }
  destruct (main_enumerates _ _ _ He) as [Hm Hcl].
  unfold purges. rewrite Hm, Hcl, Hf. simpl. auto.
Qed.

Lemma listing_error_aborts_run_witness :
  ended (msgraph_main
           (sample_world [full_page 2; Http 503 None; last_page [event "C"]] true)
           (purge_arguments false)) = Exit 1.
Proof.
  refine (proj1 (proj2 (listing_error_aborts_run
                          (sample_world [full_page 2; Http 503 None; last_page [event "C"]] true)
                          (purge_arguments false) _ [full_page 2] 503 None
                          [last_page [event "C"]] (sample_enumerates _ _) _ _ _)));
    reflexivity.
Defined.

(** C6, the Google enumerator: [fetch_events] of [google_cleaner.py]
    makes one listing call and never follows the continuation token.
    On a listing of two pages the batch is the first page alone, and
    whatever replies follow the first are never read. *)
Theorem google_fetch_reads_one_page :
  google_fetch_events [google_page [event "A"] (Some "t"); google_page [event "B"] None]
    = Returned [event "A"]
  /\ forall r rest, google_fetch_events (r :: rest) = google_fetch_events [r].
Proof. split; [reflexivity|]. intros r rest. reflexivity. Qed.

(** The Graph enumerator ([msgraph_cleaner.py] and [cleaner.py]), for
    contrast: the same two pages, served with a next link, are both in
    the batch, in order ([fetch_loop_concat] has the general statement). *)
Lemma graph_fetch_reads_both_pages :
  fetch_events
    [Http 200 (Some (JObj [("value", JArr [event "A"]); ("@odata.nextLink", JStr "t")]));
     last_page [event "B"]] "s" "e"
  = Returned [event "A"; event "B"].
Proof. reflexivity. Qed.

(** C10: a success reply whose JSON object has no key [value] makes
    [data['value']] raise [KeyError]; the handler only catches
    [HTTPError], so the exception leaves [fetch_events] and [main]: no
    exit through [sys.exit(1)], no batch. *)
Theorem missing_value_key_raises w a win pre status fields post :
  enumerates w a win ->
  listing w = (pre ++ Http status (Some (JObj fields)) :: post)%list ->
  fetch_events pre (start_time_iso win) (end_time_iso win) = Starved ->
  raises_for_status status = false ->
  dict_lookup fields "value" = None ->
  fetch_events (listing w) (start_time_iso win) (end_time_iso win)
    = Raised (KeyError "value")
  /\ ended (msgraph_main w a) = Crash (KeyError "value")
  /\ ended (cleaner_main w a) = Crash (KeyError "value").
Proof.
  intros He Hl Hpre Hs Hk.
  assert (Hf : fetch_events (listing w) (start_time_iso win) (end_time_iso win)
               = Raised (KeyError "value")).
  { unfold fetch_events in *. rewrite Hl.
    destruct (fetch_loop_starved _ _ _ Hpre) as (link' & events' & Ht & Hc & Hgo).
    rewrite Hgo. simpl. rewrite Ht. simpl.
    apply Z.ltb_ge in Hc. rewrite Hc, Hs. simpl. rewrite Hk. reflexivity. }
  destruct (main_enumerates _ _ _ He) as [Hm Hcl].
  rewrite Hm, Hcl, Hf. auto.
Qed.

Lemma missing_value_key_raises_witness :
  ended (msgraph_main (sample_world [Http 200 (Some (JObj [("error", JNull)]))] true)
           (purge_arguments false)) = Crash (KeyError "value").
Proof.
  refine (proj1 (proj2 (missing_value_key_raises
                          (sample_world [Http 200 (Some (JObj [("error", JNull)]))] true)
                          (purge_arguments false) _ [] 200 [("error", JNull)] []
                          (sample_enumerates _ _) _ _ _ _)));
    reflexivity.
Defined.

(** ** The time window *)

Lemma digit_not_plus d : digit d <> "+"%char.
Proof.
  unfold digit.
  repeat match goal with |- context [if ?b then _ else _] => destruct b end;
    discriminate.
Qed.

Lemma append_assoc (s t u : string) : (s +:+ t) +:+ u = s +:+ (t +:+ u).
Proof.
  induction s as [|c s IH]; [reflexivity|].
  change (String c ((s +:+ t) +:+ u) = String c (s +:+ (t +:+ u))).
  rewrite IH. reflexivity.
Qed.

Lemma plus_free_app s t : plus_free s -> plus_free t -> plus_free (s +:+ t).
Proof.
  induction s as [|c s IH]; [intros _ Ht; exact Ht|].
  intros [Hc Hs] Ht. change (plus_free (String c (s +:+ t))).
  split; [assumption|]. apply IH; assumption.
Qed.

Lemma plus_free_zero_padded w : forall n, plus_free (zero_padded w n).
Proof.
  induction w as [|w IH]; intros n; [exact I|].
  change (plus_free (zero_padded w (n / 10) +:+ String (digit (n mod 10)) "")).
  apply plus_free_app; [apply IH|]. split; [apply digit_not_plus|exact I].
Qed.

(** The text of [isoformat] is a body without plus sign, then [+00:00]. *)
Lemma isoformat_shape t :
  exists body, plus_free body /\ isoformat t = body +:+ "+00:00".
Proof.
  unfold isoformat. destruct (ord2ymd (t / 86400 + 1)) as [[y m] d].
  set (s := t mod 86400).
  exists (zero_padded 4 y +:+ "-" +:+ zero_padded 2 m +:+ "-" +:+ zero_padded 2 d +:+ "T"
          +:+ zero_padded 2 (s / 3600) +:+ ":" +:+ zero_padded 2 (s mod 3600 / 60) +:+ ":"
          +:+ zero_padded 2 (s mod 60)).
  split.
  - repeat (apply plus_free_app; [apply plus_free_zero_padded|]).
    repeat (first [apply plus_free_zero_padded
                  | apply plus_free_app; [apply plus_free_zero_padded|]
                  | apply (plus_free_app (String _ "")); [simpl; split; [discriminate|exact I]|]]).
  - rewrite !append_assoc. reflexivity.
Qed.

Lemma prefix_offset_head c rest :
  c <> "+"%char -> String.prefix "+00:00" (String c rest) = false.
Proof.
  intros Hc.
  change (String.prefix "+00:00" (String c rest))
    with (if ascii_dec "+" c then String.prefix "00:00" rest else false).
  destruct (ascii_dec "+" c) as [E|_]; [|reflexivity].
  exfalso. apply Hc. symmetry. exact E.
Qed.

Lemma replace_offset body :
  plus_free body -> replace "+00:00" "Z" (body +:+ "+00:00") = body +:+ "Z".
Proof.
  unfold replace. induction body as [|c body IH]; intros Hb; [reflexivity|].
  destruct Hb as [Hc Hb].
  change (replace_from 0 "+00:00" "Z" (String c (body +:+ "+00:00"))
          = String c (body +:+ "Z")).
  cbn [replace_from]. rewrite (prefix_offset_head c _ Hc), (IH Hb). reflexivity.
Qed.

Lemma contains_offset body :
  plus_free body -> contains "+00:00" (body +:+ "Z") = false.
Proof.
  induction body as [|c body IH]; intros Hb; [reflexivity|].
  destruct Hb as [Hc Hb].
  change (contains "+00:00" (String c (body +:+ "Z")) = false).
  cbn [contains]. rewrite (prefix_offset_head c _ Hc), (IH Hb). reflexivity.
Qed.

(** The serialized form of any point in time ends in [Z] and holds no
    [+00:00]. *)
Lemma serialized_shape t :
  ends_with "Z" (replace "+00:00" "Z" (isoformat t))
  /\ contains "+00:00" (replace "+00:00" "Z" (isoformat t)) = false.
Proof.
  destruct (isoformat_shape t) as (body & Hb & ->).
  rewrite (replace_offset body Hb). split.
  - exists body. reflexivity.
  - apply contains_offset. exact Hb.
Qed.

(** The serialized form is the text of [isoformat] with its offset
    [+00:00] turned into [Z], and nothing else changed. *)
Lemma serialized_is_isoformat t :
  exists body,
    isoformat t = body +:+ "+00:00" /\ replace "+00:00" "Z" (isoformat t) = body +:+ "Z".
Proof.
  destruct (isoformat_shape t) as (body & Hb & Hi).
  exists body. split; [exact Hi|]. rewrite Hi. apply replace_offset. exact Hb.
Qed.

(** C8, as stated, fails: the string [0001-01-01 00:00] parses and the
    zone [Etc/GMT-2] is known, but two hours before the first instant
    of year 1 is no [datetime]: the conversion raises [OverflowError]
    and there is no window to serialize. *)
Lemma valid_input_without_window :
  canonical_strptime "0001-01-01 00:00"
    = Some {| year := 1; month := 1; day := 1; hour := 0; minute := 0 |}
  /\ sample_zones "Etc/GMT-2" = Some (fixed_zone 7200)
  /\ resolve_window sample_zones canonical_strptime "Etc/GMT-2"
       "0001-01-01 00:00" "2023-01-02 00:00" = Raised OverflowError
  /\ ~ exists w, resolve_window sample_zones canonical_strptime "Etc/GMT-2"
                   "0001-01-01 00:00" "2023-01-02 00:00" = Returned w.
Proof.
  split; [reflexivity|]. split; [reflexivity|]. split; [reflexivity|].
  intros [w H]. vm_compute in H. discriminate.
Qed.

(** C8, amended: for every zone table and every parser, when the zone
    is known, both strings parse, [localize] attaches an offset to
    each, and both bounds, less their offset, fall within the years
    1..9999 of [datetime], the resolver returns the window of the two
    bounds in UTC (each its local time less its offset), and each
    serialized bound is the [isoformat] text with [Z] in the place of
    [+00:00]: it ends in the character [Z] and holds no [+00:00]. *)
Theorem window_serialized_with_Z zones strptime timezone start stop tz dt0 dt1 off0 off1 :
  zones timezone = Some tz ->
  strptime start = Some dt0 -> strptime stop = Some dt1 ->
  localize tz dt0 = inl off0 -> localize tz dt1 = inl off1 ->
  representable (seconds_of dt0 - off0) = true ->
  representable (seconds_of dt1 - off1) = true ->
  exists w,
    resolve_window zones strptime timezone start stop = Returned w
    /\ start_time w = seconds_of dt0 - off0 /\ end_time w = seconds_of dt1 - off1
    /\ (exists body, isoformat (start_time w) = body +:+ "+00:00"
                     /\ start_time_iso w = body +:+ "Z")
    /\ (exists body, isoformat (end_time w) = body +:+ "+00:00"
                     /\ end_time_iso w = body +:+ "Z")
    /\ ends_with "Z" (start_time_iso w) /\ contains "+00:00" (start_time_iso w) = false
    /\ ends_with "Z" (end_time_iso w) /\ contains "+00:00" (end_time_iso w) = false.
Proof.
  intros Hz H0 H1 Hl0 Hl1 Hr0 Hr1.
  exists {| start_time := seconds_of dt0 - off0; end_time := seconds_of dt1 - off1 |}.
  split.
  { unfold resolve_window, to_utc. rewrite Hz, H0, H1, Hl0, Hr0, Hl1, Hr1. reflexivity. }
  unfold start_time_iso, end_time_iso. simpl.
  destruct (serialized_shape (seconds_of dt0 - off0)) as [A1 A2].
  destruct (serialized_shape (seconds_of dt1 - off1)) as [B1 B2].
  split; [reflexivity|]. split; [reflexivity|].
  split; [apply serialized_is_isoformat|]. split; [apply serialized_is_isoformat|].
  auto.
Qed.

Lemma window_serialized_with_Z_witness :
  exists w,
    resolve_window sample_zones canonical_strptime "Etc/GMT-2"
      "2024-03-01 01:30" "2024-03-02 00:00" = Returned w
    /\ start_time w
       = seconds_of {| year := 2024; month := 3; day := 1; hour := 1; minute := 30 |} - 7200
    /\ end_time w
       = seconds_of {| year := 2024; month := 3; day := 2; hour := 0; minute := 0 |} - 7200
    /\ (exists body, isoformat (start_time w) = body +:+ "+00:00"
                     /\ start_time_iso w = body +:+ "Z")
    /\ (exists body, isoformat (end_time w) = body +:+ "+00:00"
                     /\ end_time_iso w = body +:+ "Z")
    /\ ends_with "Z" (start_time_iso w) /\ contains "+00:00" (start_time_iso w) = false
    /\ ends_with "Z" (end_time_iso w) /\ contains "+00:00" (end_time_iso w) = false.
Proof.
  apply (window_serialized_with_Z sample_zones canonical_strptime "Etc/GMT-2"
           "2024-03-01 01:30" "2024-03-02 00:00" (fixed_zone 7200)
           {| year := 2024; month := 3; day := 1; hour := 1; minute := 30 |}
           {| year := 2024; month := 3; day := 2; hour := 0; minute := 0 |}
           7200 7200); reflexivity.
Defined.

(** The end-to-end bounds of the specification, and a zone two hours
    east of UTC. *)
Example serialized_bounds_utc :
  match resolve_window sample_zones canonical_strptime "UTC"
          "2023-01-01 00:00" "2023-01-02 00:00" with
  | Returned w => start_time_iso w = "2023-01-01T00:00:00Z"
                  /\ end_time_iso w = "2023-01-02T00:00:00Z"
  | _ => False
  end.
Proof. vm_compute. split; reflexivity. Qed.

Example serialized_bounds_east :
  match resolve_window sample_zones canonical_strptime "Etc/GMT-2"
          "2024-03-01 01:30" "9999-12-31 23:59" with
  | Returned w => start_time_iso w = "2024-02-29T23:30:00Z"
                  /\ end_time_iso w = "9999-12-31T21:59:00Z"
  | _ => False
  end.
Proof. vm_compute. split; reflexivity. Qed.

(** C9, as stated, fails: with the start after the end, in UTC, the
    resolver succeeds and the window has its start after its end;
    [main] goes on to sign in and to enumerate with it. *)
Lemma window_start_after_end :
  exists w,
    resolve_window sample_zones canonical_strptime "UTC"
      "2023-01-02 00:00" "2023-01-01 00:00" = Returned w
    /\ end_time w < start_time w
    /\ ended (msgraph_main (sample_world [last_page []] true)
                {| arg_start := Some "2023-01-02 00:00"; arg_end := Some "2023-01-01 00:00";
                   arg_timezone := "UTC"; arg_clean := false |}) = Purge [].
Proof.
  eexists. split; [vm_compute; reflexivity|]. split; [vm_compute; reflexivity|].
  vm_compute. reflexivity.
Qed.

(** C9, amended: the resolver either fails (exit status 1, or an
    exception other than [ValueError]) or yields a window whose bounds
    are the two inputs, each converted to UTC on its own; nothing
    compares them. The window has [start <= end] exactly when the start
    input, less its offset, is not after the end input, less its
    offset; with one offset for both, exactly when the local start is
    not after the local end. *)
Theorem window_bounds_unordered zones strptime timezone start stop w :
  resolve_window zones strptime timezone start stop = Returned w ->
  exists tz dt0 dt1 off0 off1,
    zones timezone = Some tz /\ strptime start = Some dt0 /\ strptime stop = Some dt1
    /\ localize tz dt0 = inl off0 /\ localize tz dt1 = inl off1
    /\ start_time w = seconds_of dt0 - off0 /\ end_time w = seconds_of dt1 - off1
    /\ (start_time w <= end_time w <-> seconds_of dt0 - off0 <= seconds_of dt1 - off1)
    /\ (off0 = off1 -> (start_time w <= end_time w <-> seconds_of dt0 <= seconds_of dt1)).
Proof.
  unfold resolve_window, to_utc. intros H.
  destruct (zones timezone) as [tz|]; [|discriminate].
  destruct (strptime start) as [dt0|]; [|discriminate].
  destruct (strptime stop) as [dt1|]; [|discriminate].
  destruct (localize tz dt0) as [off0|e0] eqn:H0; [|destruct e0; discriminate].
  destruct (representable (seconds_of dt0 - off0)); [|discriminate].
  destruct (localize tz dt1) as [off1|e1] eqn:H1; [|destruct e1; discriminate].
  destruct (representable (seconds_of dt1 - off1)); [|discriminate].
  injection H as <-. exists tz, dt0, dt1, off0, off1. simpl.
  repeat split; try assumption; try lia.
  all: intros; subst; lia.
Qed.

Lemma window_bounds_unordered_witness :
  exists tz dt0 dt1 off0 off1,
    sample_zones "UTC" = Some tz /\ canonical_strptime "2023-01-02 00:00" = Some dt0
    /\ canonical_strptime "2023-01-01 00:00" = Some dt1
    /\ localize tz dt0 = inl off0 /\ localize tz dt1 = inl off1
    /\ 63808214400 = seconds_of dt0 - off0 /\ 63808128000 = seconds_of dt1 - off1
    /\ (63808214400 <= 63808128000 <-> seconds_of dt0 - off0 <= seconds_of dt1 - off1)
    /\ (off0 = off1 -> (63808214400 <= 63808128000 <-> seconds_of dt0 <= seconds_of dt1)).
Proof.
  apply (window_bounds_unordered sample_zones canonical_strptime "UTC"
           "2023-01-02 00:00" "2023-01-01 00:00"
           {| start_time := 63808214400; end_time := 63808128000 |}).
  vm_compute. reflexivity.
Defined.

(** The resolver never gives up for lack of input: it returns, exits
    with status 1, or raises. *)
Lemma resolve_window_total zones strptime timezone start stop :
  (exists w, resolve_window zones strptime timezone start stop = Returned w)
  \/ resolve_window zones strptime timezone start stop = Exited 1
  \/ exists e, resolve_window zones strptime timezone start stop = Raised e.
Proof.
  unfold resolve_window.
  destruct (zones timezone) as [tz|]; [|auto].
  destruct (strptime start) as [dt0|]; [|auto].
  destruct (strptime stop) as [dt1|]; [|auto].
  destruct (to_utc tz dt0) as [t0|e0]; [|destruct e0; simpl; eauto].
  destruct (to_utc tz dt1) as [t1|e1]; [|destruct e1; simpl; eauto].
  eauto.
Qed.

(** A resolver that fails ends [main] on the spot: sign-in and the
    listing, which come after it, are never reached. *)
Lemma window_failure_ends_run w a :
  arg_clean a = false ->
  (forall win, resolve_window (zones w) (strptime w) (arg_timezone a)
                 (text_of (arg_start a)) (text_of (arg_end a)) <> Returned win) ->
  purges (msgraph_main w a) = false
  /\ ((exists code, ended (msgraph_main w a) = Exit code)
      \/ exists e, ended (msgraph_main w a) = Crash e).
Proof.
  intros Hc Hw. unfold purges, msgraph_main. rewrite Hc. simpl.
  destruct (negb (given (arg_start a)) || negb (given (arg_end a))); simpl; [eauto|].
  destruct (resolve_window_total (zones w) (strptime w) (arg_timezone a)
              (text_of (arg_start a)) (text_of (arg_end a))) as [[win H]|[H|[e H]]].
  - exfalso. exact (Hw win H).
  - rewrite H. simpl. eauto.
  - rewrite H. simpl. eauto.
Qed.

(** ** The deletion phase *)

Local Open Scope nat_scope.
Local Open Scope list_scope.

Lemma sum_list_insert (f : pc -> nat) (l : list pc) :
  forall i x y,
    l !! i = Some x ->
    sum_list_with f (<[i := y]> l) + f x = sum_list_with f l + f y.
Proof.
  induction l as [|a l IH]; intros i x y H; [discriminate|].
  destruct i as [|i]; simpl in *.
  - injection H as ->. lia.
  - specialize (IH i x y H). lia.
Qed.

Lemma in_flight_le_slots_held p : in_flight p <= slots_held p.
Proof.
  unfold in_flight, slots_held.
  induction (tasks p) as [|s l IH]; simpl; [lia|].
  destruct s; simpl; lia.
Qed.

(** Unfolds [fire] in [H : fire .. m p = Some p'] for a given kind of
    move, naming the facts found on the way. *)
Ltac fire_inv H :=
  unfold fire in H;
  repeat match type of H with
         | context [match ?x with _ => _ end] => destruct x eqn:?
         end;
  try discriminate;
  injection H as <-.

Section Pool.
Variable fl : flavour.
Variable ids : list json.
Variable replies : nat -> delete_reply.

Lemma fire_slots m p p' :
  fire fl ids replies m p = Some p' ->
  permits p' + slots_held p' = permits p + slots_held p.
Proof.
  intros H. unfold slots_held.
  destruct m as [i|i|i|i]; fire_inv H; simpl;
    match goal with
    | E : tasks p !! _ = Some ?s |- context [<[_ := ?s']> _] =>
        pose proof (sum_list_insert holds_slot _ _ _ s' E) as Hs; simpl in Hs; lia
    end.
Qed.

Lemma fire_length m p p' :
  fire fl ids replies m p = Some p' -> length (tasks p') = length (tasks p).
Proof.
  intros H. destruct m as [i|i|i|i]; fire_inv H; simpl; apply length_insert.
Qed.

Lemma fire_work_left m p p' :
  fire fl ids replies m p = Some p' -> work_left p' < work_left p.
Proof.
  intros H. unfold work_left.
  destruct m as [i|i|i|i]; fire_inv H; simpl;
    match goal with
    | E : tasks p !! _ = Some ?s |- context [<[_ := ?s']> _] =>
        pose proof (sum_list_insert remaining _ _ _ s' E) as Hs; simpl in Hs; lia
    end.
Qed.

(** The semaphore invariant: the permits left and the slots held add
    up to three. *)
Lemma reachable_slots p :
  reachable fl ids replies p -> permits p + slots_held p = 3.
Proof.
  unfold reachable. revert p.
  apply (rtc_ind_r (fun q => permits q + slots_held q = 3)).
  - unfold slots_held, initial. simpl.
    induction (length ids) as [|n IHn]; simpl in *; lia.
  - intros q q' _ [m Hm] IH. rewrite (fire_slots _ _ _ Hm). exact IH.
Qed.

Lemma reachable_length p :
  reachable fl ids replies p -> length (tasks p) = length ids.
Proof.
  unfold reachable. revert p.
  apply (rtc_ind_r (fun q => length (tasks q) = length ids)).
  - simpl. apply length_replicate.
  - intros q q' _ [m Hm] IH. rewrite (fire_length _ _ _ Hm). exact IH.
Qed.

Lemma play_reachable ms : forall p p',
  play fl ids replies ms p = Some p' -> rtc (step fl ids replies) p p'.
Proof.
  induction ms as [|m ms IH]; intros p p' H; simpl in H.
  - injection H as ->. apply rtc_refl.
  - destruct (fire fl ids replies m p) as [q|] eqn:Hm; [|discriminate].
    eapply rtc_l; [exists m; exact Hm|]. apply IH. exact H.
Qed.
End Pool.

Lemma unfinished_task (l : list pc) :
  forallb (fun s => match s with Finished => true | _ => false end) l = false ->
  exists i s, l !! i = Some s /\ s <> Finished.
Proof.
  induction l as [|a l IH]; simpl; [discriminate|].
  intros H. destruct a; try (eexists 0, _; split; [reflexivity|discriminate]).
  destruct (IH H) as (i & s & Hi & Hs). exists (S i), s. auto.
Qed.

Lemma slot_holder (l : list pc) :
  0 < sum_list_with holds_slot l ->
  exists i s, l !! i = Some s /\ (s = InFlight \/ s = Sleeping).
Proof.
  induction l as [|a l IH]; simpl; [lia|].
  intros H. destruct a; try (eexists 0, _; split; [reflexivity|auto]; fail);
    simpl in H; destruct (IH H) as (i & s & Hi & Hs); exists (S i), s; auto.
Qed.

Section Progress.
Variable fl : flavour.
Variable ids : list json.
Variable replies : nat -> delete_reply.

Lemma holder_moves p i s :
  length (tasks p) = length ids ->
  tasks p !! i = Some s -> s = InFlight \/ s = Sleeping ->
  exists m p', fire fl ids replies m p = Some p'.
Proof.
  intros Hlen Hi [-> | ->].
  - assert (Hid : is_Some (ids !! i)).
    { apply lookup_lt_is_Some. rewrite <- Hlen. eapply lookup_lt_Some. exact Hi. }
    destruct Hid as [event_id Hid].
    exists (Respond i). simpl. rewrite Hi, Hid. destruct (replies i); eauto.
  - exists (Wake i). simpl. rewrite Hi. eauto.
Qed.

(** No deadlock: while a coroutine is unfinished, some move is
    enabled. *)
Lemma progress p :
  reachable fl ids replies p -> complete p = false ->
  exists m p', fire fl ids replies m p = Some p'.
Proof.
  intros Hr Hc.
  pose proof (reachable_length _ _ _ _ Hr) as Hlen.
  pose proof (reachable_slots _ _ _ _ Hr) as Hslots.
  destruct (unfinished_task _ Hc) as (i & s & Hi & Hs).
  destruct s; try congruence.
  - destruct (permits p) as [|k] eqn:Hp.
    + destruct (slot_holder (tasks p)) as (j & s & Hj & Hsj);
        [unfold slots_held in Hslots; lia|].
      eapply holder_moves; eauto.
    + exists (Acquire i). simpl. rewrite Hi, Hp. eauto.
  - eapply holder_moves; eauto.
  - eapply holder_moves; eauto.
Qed.

(** From any state of a run the [gather] can be brought to its end;
    no run makes more than three moves per event. *)
Lemma run_completes p :
  reachable fl ids replies p ->
  exists p', rtc (step fl ids replies) p p' /\ complete p' = true.
Proof.
  remember (work_left p) as n eqn:Hn. revert p Hn.
  induction n as [n IH] using lt_wf_ind. intros p Hn Hr.
  destruct (complete p) eqn:Hc.
  - exists p. split; [apply rtc_refl|exact Hc].
  - destruct (progress p Hr Hc) as (m & q & Hm).
    pose proof (fire_work_left _ _ _ _ _ _ Hm) as Hlt.
    destruct (IH (work_left q) ltac:(lia) q eq_refl) as (p' & Hp' & Hc').
    + eapply rtc_r; [exact Hr|]. exists m. exact Hm.
    + exists p'. split; [|exact Hc']. eapply rtc_l; [exists m; exact Hm|exact Hp'].
Qed.

Lemma release_after_response m p p' :
  fire fl ids replies m p = Some p' ->
  permits p < permits p' ->
  exists i, (m = Wake i /\ tasks p !! i = Some Sleeping)
            \/ (m = Respond i /\ tasks p !! i = Some InFlight /\ replies i = Dropped)
            \/ (m = Cancel i /\ failed p = true).
Proof.
  intros H Hlt. destruct m as [i|i|i|i]; exists i; fire_inv H; simpl in *;
    try lia; auto.
Qed.

Lemma issue_takes_slot m p p' :
  fire fl ids replies m p = Some p' ->
  sent p' <> sent p ->
  exists i, m = Acquire i /\ tasks p !! i = Some Created
            /\ S (permits p') = permits p /\ tasks p' !! i = Some InFlight.
Proof.
  intros H Hne. destruct m as [i|i|i|i]; fire_inv H; simpl in *; try congruence.
  exists i. repeat split; try assumption; try congruence.
  apply list_lookup_insert_eq. eapply lookup_lt_Some. eassumption.
Qed.
End Progress.

(** The bound itself, from the semaphore invariant. *)
Lemma in_flight_bound fl ids replies p :
  reachable fl ids replies p -> in_flight p <= 3.
Proof.
  intros H. pose proof (reachable_slots _ _ _ _ H).
  pose proof (in_flight_le_slots_held p). lia.
Qed.

(** C2: in every state of every run of [delete_events], for every
    batch, at most three delete requests are outstanding. Each
    outstanding request holds a slot of the semaphore, slots held and
    permits left add up to three, a request is issued only by a move
    that takes a permit, and a permit comes back only once the response
    was seen (the sleep after it has ended), the request has failed, or
    the task is cancelled after a failure. *)
Theorem at_most_three_in_flight fl ids replies p :
  reachable fl ids replies p ->
  in_flight p <= 3
  /\ in_flight p <= slots_held p /\ permits p + slots_held p = 3
  /\ forall m p', fire fl ids replies m p = Some p' ->
       (sent p' <> sent p ->
          exists i, m = Acquire i /\ tasks p !! i = Some Created
                    /\ S (permits p') = permits p /\ tasks p' !! i = Some InFlight)
       /\ (permits p < permits p' ->
          exists i, (m = Wake i /\ tasks p !! i = Some Sleeping)
                    \/ (m = Respond i /\ tasks p !! i = Some InFlight /\ replies i = Dropped)
                    \/ (m = Cancel i /\ failed p = true)).
Proof.
  intros H. pose proof (reachable_slots _ _ _ _ H) as Hs.
  pose proof (in_flight_le_slots_held p) as Hle.
  split; [lia|]. split; [exact Hle|]. split; [exact Hs|].
  intros m p' Hm. split.
  - apply (issue_takes_slot _ _ _ _ _ _ Hm).
  - apply (release_after_response _ _ _ _ _ _ Hm).
Qed.

Lemma at_most_three_in_flight_witness :
  in_flight three_acquired <= 3
  /\ fire Graph five_ids always_204 (Acquire 3) three_acquired = None.
Proof.
  split; [|reflexivity].
  apply (at_most_three_in_flight Graph five_ids always_204 three_acquired).
  apply (play_reachable _ _ _ [Acquire 0; Acquire 1; Acquire 2]). reflexivity.
Defined.

(** The batches the specification names: none, one and a thousand
    events. *)
Corollary in_flight_bound_named_batches fl replies :
  (forall p, reachable fl [] replies p -> in_flight p <= 3)
  /\ (forall event_id p, reachable fl [event_id] replies p -> in_flight p <= 3)
  /\ (forall p, reachable fl (repeat (JStr "E") 1000) replies p -> in_flight p <= 3).
Proof.
  repeat split; intros; eapply in_flight_bound; eassumption.
Qed.

Lemma responded_insert_same (ts : list pc) :
  forall i s s' ids,
    ts !! i = Some s -> past_response s = past_response s' ->
    responded (<[i := s']> ts) ids = responded ts ids.
Proof.
  induction ts as [|a ts IH]; intros i s s' ids Hi Hp; [discriminate|].
  destruct i as [|i]; simpl in *.
  - injection Hi as ->. destruct ids; [reflexivity|]. rewrite Hp. reflexivity.
  - destruct ids as [|e ids]; [reflexivity|].
    rewrite (IH i s s' ids Hi Hp). reflexivity.
Qed.

Lemma responded_insert_new (ts : list pc) :
  forall i s s' ids e,
    ts !! i = Some s -> ids !! i = Some e ->
    past_response s = false -> past_response s' = true ->
    responded (<[i := s']> ts) ids ≡ₚ e :: responded ts ids.
Proof.
  induction ts as [|a ts IH]; intros i s s' ids e Hi He Hs Hs'; [discriminate|].
  destruct ids as [|e0 ids]; [discriminate|].
  destruct i as [|i]; simpl in *.
  - injection Hi as ->. injection He as ->. rewrite Hs, Hs'. reflexivity.
  - pose proof (IH i s s' ids e Hi He Hs Hs') as IH'.
    destruct (past_response a).
    + rewrite IH'. apply perm_swap.
    + exact IH'.
Qed.

Lemma responded_fresh n : forall ids, responded (replicate n Created) ids = [].
Proof.
  induction n as [|n IH]; intros ids; [reflexivity|].
  destruct ids; simpl; [reflexivity|]. apply IH.
Qed.

Lemma responded_complete (ts : list pc) :
  forall ids,
    forallb (fun s => match s with Finished => true | _ => false end) ts = true ->
    length ts = length ids ->
    responded ts ids = ids.
Proof.
  induction ts as [|a ts IH]; intros ids Hc Hl; destruct ids as [|e ids];
    try discriminate; [reflexivity|].
  simpl in *. apply andb_true_iff in Hc as [Ha Hc]. destruct a; try discriminate.
  simpl. rewrite IH; auto.
Qed.

Lemma event_ids_length events : forall ids,
  event_ids events = inl ids -> length ids = length events.
Proof.
  induction events as [|ev events IH]; intros ids H; simpl in H.
  - injection H as <-. reflexivity.
  - destruct (subscript ev "id"); [|discriminate].
    destruct (event_ids events) as [l|]; [|discriminate].
    injection H as <-. simpl. rewrite (IH l eq_refl). reflexivity.
Qed.

Lemma length_filter_sum {A : Type} (f : A -> bool) (l : list A) :
  length (List.filter f l) = sum_list_with (fun x => if f x then 1 else 0) l.
Proof.
  induction l as [|a l IH]; simpl; [reflexivity|].
  destruct (f a); simpl; rewrite IH; reflexivity.
Qed.

Section AllDeleted.
Variable ids : list json.
Variable replies : nat -> delete_reply.
Hypothesis no_content : forall i, exists text, replies i = Status 204 text.

(** With every reply a 204, no coroutine raises and the lines printed
    are one [Deleted event ...] per response seen. *)
Lemma reachable_printed p :
  reachable Graph ids replies p ->
  failed p = false /\ printed p ≡ₚ Deleted <$> responded (tasks p) ids.
Proof.
  unfold reachable. revert p.
  apply (rtc_ind_r (fun q => failed q = false
                             /\ printed q ≡ₚ Deleted <$> responded (tasks q) ids)).
  - split; [reflexivity|]. simpl. rewrite responded_fresh. reflexivity.
  - intros q q' _ [m Hm] [Hf Hp].
    destruct m as [i|i|i|i]; fire_inv Hm; simpl in *; try congruence.
    + split; [assumption|].
      erewrite responded_insert_same; [exact Hp|eassumption|reflexivity].
    + destruct (no_content i) as [text' Ht].
      match goal with E : replies i = Status _ _ |- _ => rewrite Ht in E; injection E as <- <- end.
      split; [assumption|]. simpl.
      match goal with
      | E1 : tasks q !! i = Some InFlight, E2 : ids !! i = Some _ |- _ =>
          rewrite (responded_insert_new _ _ _ Sleeping _ _ E1 E2 eq_refl eq_refl)
      end.
      rewrite fmap_cons, <- Hp. symmetry. apply Permutation_cons_append.
    + destruct (no_content i) as [text' Ht]. congruence.
    + split; [assumption|].
      erewrite responded_insert_same; [exact Hp|eassumption|reflexivity].
Qed.
End AllDeleted.

Lemma deleted_lines_count (ids : list json) :
  sum_list_with (fun x => if is_deleted x then 1 else 0) (Deleted <$> ids) = length ids.
Proof. induction ids as [|e ids IH]; simpl; [reflexivity|]. f_equal. exact IH. Qed.

Lemma filter_none {A : Type} (f : A -> bool) (l : list A) :
  Forall (fun x => f x = false) l -> List.filter f l = [].
Proof.
  induction 1 as [|a l Ha _ IH]; simpl; [reflexivity|]. rewrite Ha. exact IH.
Qed.

(** C3, as stated, fails: [delete_events] returns [None] in every run,
    also when the one event of the batch is deleted with a 204; there
    is no report to read a [deletedCount] from. *)
Lemma purge_returns_no_report :
  exists p,
    reachable Graph [JStr "A"] always_204 p /\ complete p = true
    /\ printed p = [Deleted (JStr "A")]
    /\ ~ exists r, as_report (delete_events_value p) = Some r
                   /\ deletedCount r = 1%Z /\ failedCount r = 0%Z /\ failures r = [].
Proof.
  exists {| permits := 3; tasks := [Finished]; sent := [0]; printed := [Deleted (JStr "A")];
            failed := false |}.
  split; [apply (play_reachable _ _ _ [Acquire 0; Respond 0; Wake 0]); reflexivity|].
  split; [reflexivity|]. split; [reflexivity|].
  intros (r & Hr & _). discriminate Hr.
Qed.

(** C3, amended: for a batch whose delete calls all come back with
    status 204, [delete_events] of [msgraph_cleaner.py] runs to its end
    and, in every run, prints one line [Deleted event <id>] for each
    event of the batch (in the order of completion) and no line
    [Could not delete ...]: the count of deletion lines is the batch
    size and the count of failure lines is 0. It returns [None]; the
    outcome is on the output only. *)
Theorem all_no_content_prints_deleted events ids replies :
  event_ids events = inl ids ->
  (forall i, exists text, replies i = Status 204 text) ->
  (exists p, reachable Graph ids replies p /\ complete p = true)
  /\ forall p,
       reachable Graph ids replies p -> complete p = true ->
       printed p ≡ₚ Deleted <$> ids
       /\ length (List.filter is_deleted (printed p)) = length events
       /\ List.filter is_failure (printed p) = []
       /\ failed p = false
       /\ delete_events_value p = JNull.
Proof.
  intros Hids H204. split.
  - destruct (run_completes Graph ids replies (initial ids)) as (p & Hp & Hc);
      [apply rtc_refl|]. exists p. auto.
  - intros p Hr Hc.
    destruct (reachable_printed ids replies H204 p Hr) as [Hf Hp].
    rewrite (responded_complete _ ids Hc (reachable_length _ _ _ _ Hr)) in Hp.
    split; [exact Hp|]. split; [|split; [|split; [exact Hf|reflexivity]]].
    + rewrite length_filter_sum, Hp, deleted_lines_count. apply event_ids_length, Hids.
    + apply filter_none. rewrite Hp. apply Forall_fmap, Forall_true. intros; reflexivity.
Qed.

Lemma all_no_content_prints_deleted_witness :
  exists p, reachable Graph [JStr "A"; JStr "B"] always_204 p /\ complete p = true.
Proof.
  refine (proj1 (all_no_content_prints_deleted [event "A"; event "B"]
                   [JStr "A"; JStr "B"] always_204 _ _)).
  - reflexivity.
  - intros i. exists "". reflexivity.
Defined.

(** A run of three events in which the responses come back out of
    order: the lines follow the order of completion. *)
Example deleted_lines_out_of_order :
  match play Graph [JStr "A"; JStr "B"; JStr "C"] always_204
          [Acquire 0; Acquire 1; Acquire 2; Respond 2; Respond 0; Wake 2; Respond 1;
           Wake 0; Wake 1]
          (initial [JStr "A"; JStr "B"; JStr "C"]) with
  | Some p => complete p = true
              /\ printed p = [Deleted (JStr "C"); Deleted (JStr "A"); Deleted (JStr "B")]
  | None => False
  end.
Proof. vm_compute. split; reflexivity. Qed.

Section Sent.
Variable fl : flavour.
Variable ids : list json.
Variable replies : nat -> delete_reply.

Lemma fire_keeps_started m p p' j s :
  fire fl ids replies m p = Some p' ->
  tasks p !! j = Some s -> s <> Created ->
  exists s', tasks p' !! j = Some s' /\ s' <> Created.
Proof.
  intros H Hj Hs.
  destruct m as [i|i|i|i]; fire_inv H; simpl;
    (destruct (decide (i = j)) as [->|Hne];
     [rewrite list_lookup_insert_eq by (eapply lookup_lt_Some; eassumption);
      eexists; split; [reflexivity|discriminate]
     |rewrite list_lookup_insert_ne by assumption; eauto]).
Qed.

Lemma fire_failed m p p' :
  fire fl ids replies m p = Some p' -> failed p' = false -> failed p = false.
Proof.
  intros H Hf. destruct m as [i|i|i|i]; fire_inv H; simpl in *; congruence.
Qed.

(** No coroutine issues its request twice, and one that has issued it
    is past the semaphore. *)
Lemma reachable_sent p :
  reachable fl ids replies p ->
  NoDup (sent p)
  /\ forall i, i ∈ sent p -> exists s, tasks p !! i = Some s /\ s <> Created.
Proof.
  unfold reachable. revert p.
  apply (rtc_ind_r (fun q => NoDup (sent q)
           /\ forall i, i ∈ sent q -> exists s, tasks q !! i = Some s /\ s <> Created)).
  - simpl. split; [constructor|]. intros i Hi. inversion Hi.
  - intros q q' _ [m Hm] [Hnd Hst].
    assert (Hkeep : forall i, i ∈ sent q ->
              exists s, tasks q' !! i = Some s /\ s <> Created).
    { intros i Hi. destruct (Hst i Hi) as (s & Hs & Hc).
      eapply fire_keeps_started; eassumption. }
    destruct m as [i|i|i|i]; try (fire_inv Hm; simpl in *; split; assumption).
    pose proof Hm as Hm'. fire_inv Hm. simpl in *. split.
    + apply NoDup_app. split; [assumption|]. split; [|apply NoDup_singleton].
      intros x Hx Hxi. apply list_elem_of_singleton in Hxi as ->.
      destruct (Hst i Hx) as (s & Hs & Hc). congruence.
    + intros x Hx. apply elem_of_app in Hx as [Hx|Hx]; [apply Hkeep; exact Hx|].
      apply list_elem_of_singleton in Hx as ->.
      rewrite list_lookup_insert_eq by (eapply lookup_lt_Some; eassumption).
      eexists; split; [reflexivity|discriminate].
Qed.

(** While no coroutine has raised, every one past the semaphore has
    issued its request. *)
Lemma reachable_sent_all p :
  reachable fl ids replies p ->
  failed p = false ->
  forall i s, tasks p !! i = Some s -> s <> Created -> i ∈ sent p.
Proof.
  unfold reachable. revert p.
  apply (rtc_ind_r (fun q => failed q = false ->
           forall i s, tasks q !! i = Some s -> s <> Created -> i ∈ sent q)).
  - simpl. intros _ i s Hi Hs. apply lookup_replicate in Hi as [-> _]. congruence.
  - intros q q' _ [m Hm] IH Hf j s Hj Hs.
    pose proof (fire_failed _ _ _ Hm Hf) as Hfq. specialize (IH Hfq).
    destruct m as [i|i|i|i]; fire_inv Hm; simpl in *; try congruence;
      (destruct (decide (i = j)) as [->|Hne];
       [|rewrite list_lookup_insert_ne in Hj by assumption]);
      try (apply elem_of_app; right; apply list_elem_of_singleton; reflexivity);
      try (apply elem_of_app; left);
      first [eapply IH; [eassumption|assumption]
            |eapply IH; [eassumption|discriminate]].
Qed.
End Sent.

Lemma omap_lookup_seq (l : list json) : forall pre,
  omap (fun i => (pre ++ l) !! i) (seq (length pre) (length l)) = l.
Proof.
  induction l as [|a l IH]; intros pre; [reflexivity|].
  simpl. rewrite list_lookup_middle by reflexivity. f_equal.
  specialize (IH (pre ++ [a])). rewrite <- app_assoc, length_app in IH. simpl in IH.
  rewrite Nat.add_1_r in IH. exact IH.
Qed.

(** [msgraph_cleaner.py] and [google_cleaner.py]: when the [gather]
    ends and no coroutine has raised, every event of the batch went to
    the delete endpoint once. *)
Lemma gather_sends_each_once fl ids replies p :
  reachable fl ids replies p -> complete p = true -> failed p = false ->
  sent p ≡ₚ seq 0 (length ids) /\ sent_ids ids p ≡ₚ ids.
Proof.
  intros Hr Hc Hf.
  destruct (reachable_sent _ _ _ _ Hr) as [Hnd Hst].
  pose proof (reachable_sent_all _ _ _ _ Hr Hf) as Hall.
  pose proof (reachable_length _ _ _ _ Hr) as Hlen.
  assert (Hperm : sent p ≡ₚ seq 0 (length ids)).
  { apply NoDup_Permutation; [assumption|apply NoDup_seq|].
    intros i. rewrite elem_of_seq. split.
    - intros Hi. destruct (Hst i Hi) as (s & Hs & _).
      apply lookup_lt_Some in Hs. lia.
    - intros [_ Hi]. destruct (lookup_lt_is_Some_2 (tasks p) i) as [s Hs]; [lia|].
      apply (Hall i s Hs).
      unfold complete in Hc. rewrite forallb_forall in Hc.
      intros ->. specialize (Hc Created). 
      assert (Hin : In Created (tasks p)) by (apply list_elem_of_In, list_elem_of_lookup; eauto).
      specialize (Hc Hin). discriminate. }
  split; [exact Hperm|].
  unfold sent_ids. rewrite Hperm.
  pose proof (omap_lookup_seq ids []) as Ho. simpl in Ho. rewrite Ho. reflexivity.
Qed.

Lemma delete_in_turn_sends (ids : list json) : forall replies,
  length replies = length ids ->
  Forall (fun r => r <> Dropped) replies ->
  fst (fst (delete_in_turn ids replies)) = ids.
Proof.
  induction ids as [|e ids IH]; intros replies Hl Hr; [reflexivity|].
  destruct replies as [|r replies]; [discriminate|].
  inversion Hr as [|? ? Hr1 Hr2]; subst. simpl.
  destruct r as [code text|]; [|congruence].
  specialize (IH replies ltac:(simpl in Hl; lia) Hr2).
  destruct (delete_in_turn ids replies) as [[s l] o]. simpl in *. congruence.
Qed.

(** [cleaner.py]: after the [gather], the loop goes through the same
    events again; every id goes to the delete endpoint twice. *)
Lemma cleaner_sends_each_twice ids replies replies2 log :
  length replies2 = length ids ->
  Forall (fun r => r <> Dropped) replies2 ->
  cleaner_deletion ids replies replies2 log ->
  log ≡ₚ ids ++ ids.
Proof.
  intros Hl Hr (p & Hp & Hc & Hf & ->).
  rewrite (delete_in_turn_sends ids replies2 Hl Hr).
  destruct (gather_sends_each_once _ _ _ _ Hp Hc Hf) as [_ ->]. reflexivity.
Qed.

(** C1, at the failing input: a listing of the one event [A], in
    [cleaner.py]. The run enters the deletion block with that event,
    and the block sends the id [A] to the delete endpoint twice: once
    from the coroutine, once from the loop that follows the [gather]
    (whose request finds the event gone). *)
Theorem cleaner_deletes_each_event_twice :
  ended (cleaner_main (sample_world [last_page [event "A"]] true) (purge_arguments false))
    = Purge [event "A"]
  /\ event_ids [event "A"] = inl [JStr "A"]
  /\ cleaner_deletion [JStr "A"] always_204 [Status 404 "Not Found"] [JStr "A"; JStr "A"].
Proof.
  split; [reflexivity|]. split; [reflexivity|].
  exists {| permits := 3; tasks := [Finished]; sent := [0]; printed := [Deleted (JStr "A")];
            failed := false |}.
  split; [apply (play_reachable _ _ _ [Acquire 0; Respond 0; Wake 0]); reflexivity|].
  repeat split.
Qed.

(** C7, at the failing inputs. [msgraph_cleaner.py --clean] calls
    [clean_cache] on the class, with no instance: a [TypeError] ends the
    run and the cache file stays. [google_cleaner.py --clean] with
    [--start] and [--end] removes the file and then goes through the
    whole purge, since [sys.exit] is named and not called; with
    [--clean] alone it exits with status 1, and with no cache file on
    disk [os.remove] raises. *)
Theorem clean_flag_runs :
  msgraph_main (sample_world [] true) clean_arguments
    = {| ended := Crash TypeError; token_file_after := true |}
  /\ google_main (sample_world [google_page [event "A"] None] true) (purge_arguments true)
    = {| ended := Purge [event "A"]; token_file_after := true |}
  /\ google_main (sample_world [] true) clean_arguments
    = {| ended := Exit 1; token_file_after := false |}
  /\ google_main (sample_world [] false) clean_arguments
    = {| ended := Crash FileNotFoundError; token_file_after := false |}.
Proof. repeat split. Qed.

(** With [--clean], [main] of [msgraph_cleaner.py] ends the same way
    for every world and whatever else is on the command line. *)
Lemma msgraph_clean_always_raises w a :
  arg_clean a = true ->
  msgraph_main w a = {| ended := Crash TypeError; token_file_after := token_file w |}.
Proof. intros H. unfold msgraph_main. rewrite H. reflexivity. Qed.

(** With [--clean], [--start] and [--end], [main] of
    [google_cleaner.py] enumerates as if [--clean] were not there. *)
Lemma google_clean_goes_on w a :
  arg_clean a = true -> token_file w = true ->
  google_main w a = google_main_after_clean w a false.
Proof. intros H Hf. unfold google_main, clean_token_cache. rewrite H, Hf. reflexivity. Qed.

(** * Further properties of the three files *)

(** ** Enumeration *)

Local Open Scope Z_scope.

(** X1: the batch that [fetch_events] of [msgraph_cleaner.py] (and the
    same loop in [cleaner.py]) returns is what the pages read hold, page
    after page in the order of the replies; the pages read are an
    initial run of the replies, none left out, and the loop ended
    because the last link was missing or empty, or because the count
    had passed the cap. *)
Theorem graph_batch_is_pages_in_order script start_iso end_iso batch :
  fetch_events script start_iso end_iso = Returned batch ->
  exists used rest,
    script = (used ++ rest)%list /\ forallb is_page used = true
    /\ batch = concat (page_of <$> used)
    /\ (truthy (List.last (cursor_of <$> used) (JStr (first_link start_iso end_iso))) = false
        \/ cap < Z.of_nat (length batch)).
Proof.
  intros H. destruct (fetch_loop_concat _ _ _ _ H) as (used & rest & H1 & H2 & H3 & H4).
  exists used, rest. auto.
Qed.

Lemma graph_batch_is_pages_in_order_witness :
  exists used rest,
    [full_page 2; last_page [event "C"]; last_page [event "D"]] = (used ++ rest)%list
    /\ forallb is_page used = true
    /\ [event "E"; event "E"; event "C"] = concat (page_of <$> used)
    /\ (truthy (List.last (cursor_of <$> used) (JStr (first_link "s" "e"))) = false
        \/ cap < Z.of_nat (length [event "E"; event "E"; event "C"])).
Proof.
  apply (graph_batch_is_pages_in_order
           [full_page 2; last_page [event "C"]; last_page [event "D"]] "s" "e").
  reflexivity.
Defined.

(** X2: once the loop has ended, on a missing link, on the cap, on
    [sys.exit(1)] or on an exception, nothing more is asked of the
    listing endpoint: the outcome is the same whatever replies would
    have followed. *)
Theorem replies_after_the_end_unread pre post start_iso end_iso :
  fetch_events pre start_iso end_iso <> Starved ->
  fetch_events (pre ++ post) start_iso end_iso = fetch_events pre start_iso end_iso.
Proof. intros H. apply fetch_loop_ignores_rest. exact H. Qed.

Lemma replies_after_the_end_unread_witness :
  fetch_events ([last_page [event "A"]] ++ [Http 500 None; NetFail]) "s" "e"
  = fetch_events [last_page [event "A"]] "s" "e".
Proof.
  apply (replies_after_the_end_unread [last_page [event "A"]] [Http 500 None; NetFail] "s" "e").
  vm_compute. discriminate.
Defined.

Lemma fetch_loop_nonempty_pages script :
  forall link events,
    forallb is_page script = true ->
    Forall (fun r => 1 <= page_size r) script ->
    cap < Z.of_nat (length events) + Z.of_nat (length script) ->
    exists batch, fetch_loop script link events = Returned batch.
Proof.
  induction script as [|r script IH]; intros link events Hp Hs Hlen.
  - exists events. apply fetch_loop_over_cap. simpl in Hlen. lia.
  - simpl. destruct (truthy link); simpl; [|eauto].
    destruct (cap <? Z.of_nat (length events)) eqn:Hc; [eauto|].
    simpl in Hp. apply andb_true_iff in Hp as [Hr Hp].
    inversion Hs as [|? ? Hr1 Hs']; subst.
    unfold is_page in Hr. unfold page_size in Hr1.
    destruct (read_page r) as [[page link1]| | |]; try discriminate.
    apply IH; [assumption|assumption|].
    rewrite length_app, Nat2Z.inj_add. simpl length in Hlen. lia.
Qed.

(** X3: when every reply reads as a page of at least one event, the
    loop cannot go on for ever: 9501 replies are always enough for it
    to return. *)
Theorem enumeration_ends_on_nonempty_pages script start_iso end_iso :
  forallb is_page script = true ->
  Forall (fun r => 1 <= page_size r) script ->
  cap < Z.of_nat (length script) ->
  exists batch, fetch_events script start_iso end_iso = Returned batch.
Proof.
  intros Hp Hs Hlen. apply fetch_loop_nonempty_pages; [assumption|assumption|].
  simpl. lia.
Qed.

Lemma enumeration_ends_on_nonempty_pages_witness :
  exists batch,
    fetch_events (repeat (full_page 1) (Z.to_nat 9501)) "s" "e" = Returned batch.
Proof.
  apply (enumeration_ends_on_nonempty_pages (repeat (full_page 1) (Z.to_nat 9501)) "s" "e").
  - vm_compute. reflexivity.
  - apply List.Forall_forall. intros r Hr. apply repeat_spec in Hr. subst r.
    vm_compute. discriminate.
  - vm_compute. reflexivity.
Defined.

Lemma fetch_loop_goes_on script :
  forall link events,
    truthy link = true ->
    Forall (fun r => is_page r = true /\ truthy (cursor_of r) = true) script ->
    Z.of_nat (length events) + Z.of_nat (length (concat (page_of <$> script))) <= cap ->
    fetch_loop script link events = Starved.
Proof.
  induction script as [|r script IH]; intros link events Ht Hs Hlen; simpl.
  - rewrite Ht. simpl. simpl in Hlen.
    destruct (cap <? Z.of_nat (length events)) eqn:Hc; [apply Z.ltb_lt in Hc; lia|reflexivity].
  - rewrite Ht. simpl.
    rewrite fmap_cons in Hlen. simpl concat in Hlen.
    rewrite length_app, Nat2Z.inj_add in Hlen.
    destruct (cap <? Z.of_nat (length events)) eqn:Hc; [apply Z.ltb_lt in Hc; lia|].
    inversion Hs as [|? ? [Hr Hcur] Hs']; subst.
    unfold is_page in Hr. unfold cursor_of in Hcur. unfold page_of in Hlen at 1.
    destruct (read_page r) as [[page link1]| | |]; try discriminate.
    apply IH; [assumption|assumption|].
    rewrite length_app, Nat2Z.inj_add. lia.
Qed.

(** X4: the loop never stops early, and has no limit on fetches of its
    own: as long as every page read carries a non-empty next link and
    the events so far do not exceed 9500, it asks for another page.
    Pages without events can keep it asking without end. *)
Theorem enumeration_goes_on_while_linked script start_iso end_iso :
  Forall (fun r => is_page r = true /\ truthy (cursor_of r) = true) script ->
  Z.of_nat (length (concat (page_of <$> script))) <= cap ->
  fetch_events script start_iso end_iso = Starved.
Proof.
  intros Hs Hlen. apply fetch_loop_goes_on; [reflexivity|assumption|].
  simpl. lia.
Qed.

Lemma enumeration_goes_on_while_linked_witness :
  fetch_events [full_page 0; full_page 3; full_page 0] "s" "e" = Starved.
Proof.
  apply (enumeration_goes_on_while_linked [full_page 0; full_page 3; full_page 0] "s" "e").
  - repeat constructor.
  - vm_compute. discriminate.
Defined.

Lemma fetch_reached_reply pre r post start_iso end_iso :
  fetch_events pre start_iso end_iso = Starved ->
  (forall code, read_page r = Exited code ->
     fetch_events (pre ++ r :: post) start_iso end_iso = Exited code)
  /\ (forall e, read_page r = Raised e ->
     fetch_events (pre ++ r :: post) start_iso end_iso = Raised e).
Proof.
  unfold fetch_events. intros Hpre.
  destruct (fetch_loop_starved _ _ _ Hpre) as (link' & events' & Ht & Hc & Hgo).
  apply Z.ltb_ge in Hc.
  split; intros x Hx; rewrite Hgo; simpl; rewrite Ht, Hc, Hx; reflexivity.
Qed.

(** X5: of all the ways a fetch can go wrong, only an HTTP error status
    reaches the handler. A request that raises, a body that is not
    JSON, or JSON that is not an object leaves [fetch_events] as an
    exception ([RequestException], [JSONDecodeError], [TypeError]),
    after any number of pages read, whose events are then lost. *)
Theorem other_fetch_failures_raise pre post start_iso end_iso :
  fetch_events pre start_iso end_iso = Starved ->
  fetch_events (pre ++ NetFail :: post) start_iso end_iso = Raised RequestException
  /\ forall status,
       raises_for_status status = false ->
       fetch_events (pre ++ Http status None :: post) start_iso end_iso
         = Raised JSONDecodeError
       /\ forall data,
            (forall fields, data <> JObj fields) ->
            fetch_events (pre ++ Http status (Some data) :: post) start_iso end_iso
              = Raised TypeError.
Proof.
  intros Hpre. split.
  - apply (fetch_reached_reply pre NetFail post _ _ Hpre). reflexivity.
  - intros status Hs. split.
    + apply (fetch_reached_reply pre _ post _ _ Hpre). simpl. rewrite Hs. reflexivity.
    + intros data Hd. apply (fetch_reached_reply pre _ post _ _ Hpre).
      simpl. rewrite Hs. destruct data; try reflexivity. exfalso. eapply Hd. reflexivity.
Qed.

Lemma other_fetch_failures_raise_witness :
  fetch_events ([full_page 2] ++ NetFail :: []) "s" "e" = Raised RequestException.
Proof.
  refine (proj1 (other_fetch_failures_raise [full_page 2] [] "s" "e" _)). reflexivity.
Defined.

Lemma google_main_enumerates w a win :
  google_enumerates w a win ->
  google_main w a
  = {| ended := after_fetch (google_fetch_events (listing w)); token_file_after := true |}.
Proof.
  intros (Hc & Hs & He & Hr & Hi).
  unfold google_main, google_main_after_clean, clean_token_cache, google_sign_in.
  destruct (arg_clean a).
  - destruct Hc as [Hc|Hc]; [discriminate|]. rewrite Hc, Hs, He, Hr, Hi. reflexivity.
  - rewrite Hs, He, Hr, Hi. simpl.
    destruct (token_file w), (stored_token_valid w); reflexivity.
Qed.

Lemma sample_google_enumerates script clean :
  google_enumerates (sample_world script true) (purge_arguments clean)
    {| start_time := 63808128000; end_time := 63808214400 |}.
Proof. unfold google_enumerates. simpl. auto 10. Qed.

(** X6: [google_cleaner.py] has no handler around its listing call. An
    error status (the client library raises [HttpError] from 300 on)
    ends [main] with that exception, not with [sys.exit(1)]; nothing is
    deleted. *)
Theorem google_listing_error_raises w a win status body rest :
  google_enumerates w a win ->
  listing w = Http status body :: rest ->
  300 <= status ->
  ended (google_main w a) = Crash HttpError /\ purges (google_main w a) = false.
Proof.
  intros He Hl Hs. unfold purges. rewrite (google_main_enumerates _ _ _ He), Hl. simpl.
  apply Z.leb_le in Hs. rewrite Hs. auto.
Qed.

Lemma google_listing_error_raises_witness :
  ended (google_main (sample_world [Http 403 None] true) (purge_arguments false))
  = Crash HttpError.
Proof.
  refine (proj1 (google_listing_error_raises (sample_world [Http 403 None] true)
                   (purge_arguments false) _ 403 None [] (sample_google_enumerates _ _) _ _)).
  - reflexivity.
  - lia.
Defined.

(** X7: in [google_cleaner.py] a listing reply without the key [items]
    is an empty batch, through [events_result.get('items', [])]: the
    deletion phase is entered with no event. (The Graph enumerator
    raises [KeyError] on a reply without [value].) *)
Theorem google_missing_items_is_empty_batch w a win status fields rest :
  google_enumerates w a win ->
  listing w = Http status (Some (JObj fields)) :: rest ->
  status < 300 ->
  dict_lookup fields "items" = None ->
  ended (google_main w a) = Purge [].
Proof.
  intros He Hl Hs Hk. rewrite (google_main_enumerates _ _ _ He), Hl. simpl.
  apply Z.leb_gt in Hs. rewrite Hs, Hk. reflexivity.
Qed.

Lemma google_missing_items_is_empty_batch_witness :
  ended (google_main (sample_world [Http 200 (Some (JObj [("kind", JStr "calendar#events")]))] true)
           (purge_arguments false)) = Purge [].
Proof.
  refine (google_missing_items_is_empty_batch
            (sample_world [Http 200 (Some (JObj [("kind", JStr "calendar#events")]))] true)
            (purge_arguments false) _ 200 [("kind", JStr "calendar#events")] []
            (sample_google_enumerates _ _) _ _ _).
  - reflexivity.
  - lia.
  - reflexivity.
Defined.

(** ** The three [main] functions *)

(** X8: the deletion phase of [msgraph_cleaner.py] and of [cleaner.py]
    is entered only after the window was resolved, the sign-in
    succeeded and [fetch_events] returned, and the events handed over
    are the batch that [fetch_events] returned for the serialized
    window. *)
Theorem purge_only_after_enumeration w a events :
  ended (msgraph_main w a) = Purge events \/ ended (cleaner_main w a) = Purge events ->
  exists win,
    resolve_window (zones w) (strptime w) (arg_timezone a)
      (text_of (arg_start a)) (text_of (arg_end a)) = Returned win
    /\ sign_in w = true
    /\ fetch_events (listing w) (start_time_iso win) (end_time_iso win) = Returned events.
Proof.
  intros [H|H].
  - unfold msgraph_main in H.
    destruct (negb (arg_clean a) && (negb (given (arg_start a)) || negb (given (arg_end a))));
      [discriminate|].
    destruct (arg_clean a); [discriminate|].
    destruct (resolve_window _ _ _ _ _) as [win| | |]; try discriminate.
    destruct (sign_in w); [|discriminate]. simpl in H.
    destruct (fetch_events _ _ _) as [evs| | |] eqn:Hfe; try discriminate.
    injection H as ->. exists win. auto.
  - unfold cleaner_main in H.
    destruct (arg_start a) as [start|]; [|discriminate].
    destruct (arg_end a) as [stop|]; [|discriminate]. simpl.
    destruct (resolve_window _ _ _ _ _) as [win| | |]; try discriminate.
    destruct (sign_in w); [|discriminate]. simpl in H.
    destruct (fetch_events _ _ _) as [evs| | |] eqn:Hfe; try discriminate.
    injection H as ->. exists win. auto.
Qed.

Lemma purge_only_after_enumeration_witness :
  exists win,
    resolve_window sample_zones canonical_strptime "UTC" "2023-01-01 00:00" "2023-01-02 00:00"
      = Returned win
    /\ true = true
    /\ fetch_events [last_page [event "A"]] (start_time_iso win) (end_time_iso win)
       = Returned [event "A"].
Proof.
  apply (purge_only_after_enumeration (sample_world [last_page [event "A"]] true)
           (purge_arguments false) [event "A"]).
  left. reflexivity.
Defined.

(** X9: a resolver that does not return a window ends all three [main]
    functions before the sign-in and before any listing call: the run
    is the same in two worlds that differ only in what the sign-in and
    the listing endpoint would answer, and it never enters the deletion
    phase. *)
Theorem window_failure_before_sign_in w w' a :
  same_before_sign_in w w' ->
  (forall win, resolve_window (zones w) (strptime w) (arg_timezone a)
                 (text_of (arg_start a)) (text_of (arg_end a)) <> Returned win) ->
  msgraph_main w a = msgraph_main w' a /\ purges (msgraph_main w a) = false
  /\ cleaner_main w a = cleaner_main w' a /\ purges (cleaner_main w a) = false
  /\ google_main w a = google_main w' a /\ purges (google_main w a) = false.
Proof.
  intros (Hz & Hp & Hf) Hw.
  unfold purges, msgraph_main, cleaner_main, google_main, google_main_after_clean,
    clean_token_cache.
  rewrite <- Hz, <- Hp, <- Hf.
  destruct (arg_start a) as [start|], (arg_end a) as [stop|]; simpl in *;
    destruct (arg_clean a), (token_file w); simpl;
    repeat match goal with
           | |- context [String.eqb ?s ""] => destruct (String.eqb s "")
           end; simpl; auto 10;
    try (destruct (resolve_window _ _ _ _ _) as [win| | |] eqn:Hr;
         [exfalso; eapply Hw; first [exact Hr|reflexivity]| | |]; simpl; auto 10).
Qed.

Lemma window_failure_before_sign_in_witness :
  purges (msgraph_main (sample_world [last_page [event "A"]] true)
            {| arg_start := Some "2023-13-40 99:99"; arg_end := Some "2023-01-02 00:00";
               arg_timezone := "UTC"; arg_clean := false |}) = false.
Proof.
  refine (proj1 (proj2 (window_failure_before_sign_in
                          (sample_world [last_page [event "A"]] true)
                          (sample_world [] true) _ _ _))).
  - repeat split.
  - intros win. vm_compute. discriminate.
Defined.

(** X10: a bound whose point in UTC falls outside the years 1..9999
    makes the conversion raise [OverflowError]; the handler around it
    is [except ValueError], so [main] of [msgraph_cleaner.py] and of
    [cleaner.py] ends with that exception and not with the
    [Error parsing times] exit. *)
Theorem bound_out_of_range_raises w a tz dt0 dt1 off :
  arg_clean a = false ->
  given (arg_start a) = true -> given (arg_end a) = true ->
  zones w (arg_timezone a) = Some tz ->
  strptime w (text_of (arg_start a)) = Some dt0 ->
  strptime w (text_of (arg_end a)) = Some dt1 ->
  localize tz dt0 = inl off ->
  representable (seconds_of dt0 - off) = false ->
  ended (msgraph_main w a) = Crash OverflowError
  /\ ended (cleaner_main w a) = Crash OverflowError.
Proof.
  intros Hc Hs He Hz H0 H1 Hl Hr.
  assert (Hw : resolve_window (zones w) (strptime w) (arg_timezone a)
                 (text_of (arg_start a)) (text_of (arg_end a)) = Raised OverflowError).
  { unfold resolve_window, to_utc. rewrite Hz, H0, H1, Hl, Hr. reflexivity. }
  split.
  - unfold msgraph_main. rewrite Hc, Hs, He, Hw. reflexivity.
  - unfold cleaner_main.
    destruct (arg_start a) as [start|]; [|discriminate].
    destruct (arg_end a) as [stop|]; [|discriminate].
    simpl in Hw. rewrite Hw. reflexivity.
Qed.

Lemma bound_out_of_range_raises_witness :
  ended (msgraph_main (sample_world [] true)
           {| arg_start := Some "0001-01-01 00:00"; arg_end := Some "2023-01-02 00:00";
              arg_timezone := "Etc/GMT-2"; arg_clean := false |}) = Crash OverflowError.
Proof.
  refine (proj1 (bound_out_of_range_raises (sample_world [] true) _ (fixed_zone 7200)
                   {| year := 1; month := 1; day := 1; hour := 0; minute := 0 |}
                   {| year := 2023; month := 1; day := 2; hour := 0; minute := 0 |}
                   7200 _ _ _ _ _ _ _ _));
    reflexivity.
Defined.



(** ** The deletion phase *)

Local Open Scope nat_scope.

Lemma complete_no_slots (l : list pc) :
  forallb (fun s => match s with Finished => true | _ => false end) l = true ->
  sum_list_with holds_slot l = 0 /\ sum_list_with outstanding l = 0.
Proof.
  induction l as [|s l IH]; simpl; [auto|].
  intros H. apply andb_true_iff in H as [Hs Hl]. destruct s; try discriminate.
  simpl. apply IH. exact Hl.
Qed.

(** X12: the [gather] cannot get stuck. In every state of a run, for
    either provider and whatever the replies (failures and
    cancellations included), some move is enabled while a coroutine is
    unfinished, and the run can be taken to the end of the [gather]. *)
Theorem gather_never_deadlocks fl ids replies p :
  reachable fl ids replies p ->
  (complete p = false -> exists m p', fire fl ids replies m p = Some p')
  /\ exists p', rtc (step fl ids replies) p p' /\ complete p' = true.
Proof.
  intros H. split.
  - apply progress. exact H.
  - apply run_completes. exact H.
Qed.

Lemma gather_never_deadlocks_witness :
  exists p', rtc (step Graph five_ids always_204) three_acquired p' /\ complete p' = true.
Proof.
  refine (proj2 (gather_never_deadlocks Graph five_ids always_204 three_acquired _)).
  apply (play_reachable _ _ _ [Acquire 0; Acquire 1; Acquire 2]). reflexivity.
Defined.

Lemma play_work_left fl ids replies ms : forall p p',
  play fl ids replies ms p = Some p' -> length ms + work_left p' <= work_left p.
Proof.
  induction ms as [|m ms IH]; intros p p' H; simpl in H.
  - injection H as ->. simpl. lia.
  - destruct (fire fl ids replies m p) as [q|] eqn:Hm; [|discriminate].
    pose proof (fire_work_left _ _ _ _ _ _ Hm). specialize (IH _ _ H). simpl. lia.
Qed.

Lemma work_left_initial ids : work_left (initial ids) = 3 * length ids.
Proof.
  unfold work_left, initial. simpl.
  induction (length ids) as [|n IH]; simpl; [reflexivity|]. rewrite IH. lia.
Qed.

(** X13: no run of the [gather] is longer than three moves per event:
    each coroutine enters the semaphore, sees its response and wakes
    from its sleep at most once. *)
Theorem run_length_bounded fl ids replies ms p :
  play fl ids replies ms (initial ids) = Some p ->
  length ms <= 3 * length ids.
Proof.
  intros H. pose proof (play_work_left _ _ _ _ _ _ H) as Hw.
  rewrite work_left_initial in Hw. lia.
Qed.

Lemma run_length_bounded_witness :
  length [Acquire 0; Acquire 1; Respond 1; Respond 0; Wake 0; Wake 1] <= 3 * length [JStr "A"; JStr "B"].
Proof.
  refine (run_length_bounded Graph [JStr "A"; JStr "B"] always_204
            [Acquire 0; Acquire 1; Respond 1; Respond 0; Wake 0; Wake 1]
            {| permits := 3; tasks := [Finished; Finished]; sent := [0; 1];
               printed := [Deleted (JStr "B"); Deleted (JStr "A")]; failed := false |} _).
  reflexivity.
Defined.

(** X14: no slot is ever lost. Once every coroutine has finished, be
    it after its response, after its request raised or after a
    cancellation, the semaphore is back at three permits and no request
    is outstanding. (After a raised request [gather] itself returns
    earlier, while sibling coroutines may still hold their slots; the
    statement is about the point where all of them are done.) *)
Theorem no_slot_leaks fl ids replies p :
  reachable fl ids replies p -> complete p = true ->
  permits p = 3 /\ in_flight p = 0.
Proof.
  intros Hr Hc. pose proof (reachable_slots _ _ _ _ Hr) as Hs.
  destruct (complete_no_slots _ Hc) as [H1 H2].
  unfold slots_held in Hs. unfold in_flight. lia.
Qed.

Lemma no_slot_leaks_witness :
  permits {| permits := 3; tasks := [Finished; Finished]; sent := [0; 1];
             printed := []; failed := true |} = 3.
Proof.
  refine (proj1 (no_slot_leaks Graph [JStr "A"; JStr "B"] (fun _ => Dropped)
                   {| permits := 3; tasks := [Finished; Finished]; sent := [0; 1];
                      printed := []; failed := true |} _ _)).
  - apply (play_reachable _ _ _ [Acquire 0; Acquire 1; Respond 1; Respond 0]). reflexivity.
  - reflexivity.
Defined.

(** X15: in [msgraph_cleaner.py] and [google_cleaner.py], no event is
    sent to the delete endpoint twice, in any state of any run; the
    requests issued are never more than the events; and when the
    [gather] ends with no coroutine having raised, the ids sent are the
    ids of the batch, each once. *)
Theorem each_request_sent_once fl ids replies p :
  reachable fl ids replies p ->
  NoDup (sent p) /\ length (sent p) <= length ids
  /\ (complete p = true -> failed p = false -> sent_ids ids p ≡ₚ ids).
Proof.
  intros Hr. destruct (reachable_sent _ _ _ _ Hr) as [Hnd Hst].
  pose proof (reachable_length _ _ _ _ Hr) as Hlen.
  split; [exact Hnd|]. split.
  - assert (Hsub : sent p ⊆+ seq 0 (length ids)).
    { apply NoDup_submseteq; [exact Hnd|].
      intros i Hi. apply elem_of_seq. destruct (Hst i Hi) as (s & Hs & _).
      apply lookup_lt_Some in Hs. lia. }
    apply submseteq_length in Hsub. rewrite List.length_seq in Hsub. exact Hsub.
  - intros Hc Hf. apply (gather_sends_each_once _ _ _ _ Hr Hc Hf).
Qed.

Lemma each_request_sent_once_witness :
  NoDup (sent three_acquired) /\ length (sent three_acquired) <= length five_ids
  /\ (complete three_acquired = true -> failed three_acquired = false ->
      sent_ids five_ids three_acquired ≡ₚ five_ids).
Proof.
  apply (each_request_sent_once Graph five_ids always_204 three_acquired).
  apply (play_reachable _ _ _ [Acquire 0; Acquire 1; Acquire 2]). reflexivity.
Defined.

Lemma lines_seen_insert_same fl replies (ts : list pc) :
  forall k i s s' ids,
    ts !! i = Some s -> past_response s = past_response s' ->
    lines_seen fl replies k (<[i := s']> ts) ids = lines_seen fl replies k ts ids.
Proof.
  induction ts as [|a ts IH]; intros k i s s' ids Hi Hp; [discriminate|].
  destruct i as [|i]; simpl in *.
  - injection Hi as ->. destruct ids; [reflexivity|]. rewrite Hp. reflexivity.
  - destruct ids as [|e ids]; [reflexivity|].
    rewrite (IH (S k) i s s' ids Hi Hp). reflexivity.
Qed.

Lemma lines_seen_insert_new fl replies (ts : list pc) :
  forall k i s s' ids e,
    ts !! i = Some s -> ids !! i = Some e ->
    past_response s = false -> past_response s' = true ->
    lines_seen fl replies k (<[i := s']> ts) ids
    ≡ₚ lines_for fl (replies (k + i)) e ++ lines_seen fl replies k ts ids.
Proof.
  induction ts as [|a ts IH]; intros k i s s' ids e Hi He Hs Hs'; [discriminate|].
  destruct ids as [|e0 ids]; [discriminate|].
  destruct i as [|i]; simpl in *.
  - injection Hi as ->. injection He as ->. rewrite Hs, Hs', Nat.add_0_r. reflexivity.
  - rewrite (IH (S k) i s s' ids e Hi He Hs Hs').
    replace (S k + i) with (k + S i) by lia.
    rewrite !app_assoc. apply Permutation_app_tail, Permutation_app_comm.
Qed.

Lemma lines_seen_fresh fl replies n : forall k ids,
  lines_seen fl replies k (replicate n Created) ids = [].
Proof.
  induction n as [|n IH]; intros k ids; [reflexivity|].
  destruct ids; simpl; [reflexivity|]. apply IH.
Qed.

Lemma lines_seen_complete fl replies (ts : list pc) :
  forall k ids,
    forallb (fun s => match s with Finished => true | _ => false end) ts = true ->
    length ts = length ids ->
    lines_seen fl replies k ts ids = all_lines fl replies k ids.
Proof.
  induction ts as [|a ts IH]; intros k ids Hc Hl; destruct ids as [|e ids];
    try discriminate; [reflexivity|].
  simpl in *. apply andb_true_iff in Hc as [Ha Hc]. destruct a; try discriminate.
  simpl. rewrite IH; auto.
Qed.

Lemma reachable_lines fl ids replies p :
  (forall i, replies i <> Dropped) ->
  reachable fl ids replies p ->
  failed p = false /\ printed p ≡ₚ lines_seen fl replies 0 (tasks p) ids.
Proof.
  intros Hnd. unfold reachable. revert p.
  apply (rtc_ind_r (fun q => failed q = false
                             /\ printed q ≡ₚ lines_seen fl replies 0 (tasks q) ids)).
  - split; [reflexivity|]. simpl. rewrite lines_seen_fresh. reflexivity.
  - intros q q' _ [m Hm] [Hf Hp].
    destruct m as [i|i|i|i]; fire_inv Hm; simpl in *; try congruence;
      try (exfalso; eapply Hnd; eassumption).
    + split; [assumption|].
      erewrite lines_seen_insert_same; [exact Hp|eassumption|reflexivity].
    + split; [assumption|].
      match goal with
      | E1 : tasks q !! i = Some InFlight, E2 : ids !! i = Some _ |- _ =>
          rewrite (lines_seen_insert_new fl replies _ 0 _ _ Sleeping _ _ E1 E2 eq_refl eq_refl)
      end.
      simpl. match goal with E : replies i = Status _ _ |- _ => rewrite E end.
      simpl. rewrite Hp. apply Permutation_app_comm.
    + split; [assumption|].
      erewrite lines_seen_insert_same; [exact Hp|eassumption|reflexivity].
Qed.

(** X16: when every delete request gets a response, the [gather] ends
    with exactly the lines of the batch printed: for each event the
    line its own status calls for ([Deleted ...] on 204 in
    [msgraph_cleaner.py], nothing on 204 in [google_cleaner.py],
    [Could not delete ...] with the status and text otherwise), in the
    order of completion. A failed deletion takes no line from any
    other event, and no coroutine raises. *)
Theorem printed_lines_of_batch fl ids replies p :
  (forall i, replies i <> Dropped) ->
  reachable fl ids replies p -> complete p = true ->
  printed p ≡ₚ all_lines fl replies 0 ids /\ failed p = false.
Proof.
  intros Hnd Hr Hc. destruct (reachable_lines _ _ _ _ Hnd Hr) as [Hf Hp].
  split; [|exact Hf].
  rewrite Hp. rewrite (lines_seen_complete _ _ _ 0 ids Hc (reachable_length _ _ _ _ Hr)).
  reflexivity.
Qed.

Lemma printed_lines_of_batch_witness :
  [CouldNotDelete (JStr "B") 404 "Not Found"; Deleted (JStr "A")]
  ≡ₚ all_lines Graph mixed_replies 0 [JStr "A"; JStr "B"].
Proof.
  refine (proj1 (printed_lines_of_batch Graph [JStr "A"; JStr "B"] mixed_replies
                   {| permits := 3; tasks := [Finished; Finished]; sent := [0; 1];
                      printed := [CouldNotDelete (JStr "B") 404 "Not Found"; Deleted (JStr "A")];
                      failed := false |} _ _ _)).
  - intros i. unfold mixed_replies. destruct (Nat.even i); discriminate.
  - apply (play_reachable _ _ _ [Acquire 0; Acquire 1; Respond 1; Respond 0; Wake 0; Wake 1]).
    reflexivity.
  - reflexivity.
Defined.

Lemma all_lines_failures fl replies (ids : list json) : forall k,
  (forall i, exists code text, replies i = Status code text /\ code <> 204%Z) ->
  length (List.filter is_failure (all_lines fl replies k ids)) = length ids
  /\ List.filter is_deleted (all_lines fl replies k ids) = []
  /\ forall i event_id, ids !! i = Some event_id ->
       exists code text, replies (k + i) = Status code text
                         /\ CouldNotDelete event_id code text ∈ all_lines fl replies k ids.
Proof.
  induction ids as [|e ids IH]; intros k H.
  - simpl. split; [reflexivity|]. split; [reflexivity|]. intros i x Hi. discriminate.
  - destruct (IH (S k) H) as (IH1 & IH2 & IH3).
    destruct (H k) as (code & text & Hk & Hne).
    assert (Hrep : lines_for fl (replies k) e = [CouldNotDelete e code text]).
    { unfold lines_for, report. rewrite Hk.
      destruct (code =? 204)%Z eqn:E; [apply Z.eqb_eq in E; contradiction|reflexivity]. }
    simpl. rewrite Hrep. simpl. split; [rewrite IH1; reflexivity|]. split; [exact IH2|].
    intros i x Hi. destruct i as [|i]; simpl in Hi.
    + injection Hi as ->. exists code, text. rewrite Nat.add_0_r. split; [exact Hk|].
      apply list_elem_of_here.
    + destruct (IH3 i x Hi) as (c & t & Hc & Hin). exists c, t.
      replace (k + S i) with (S k + i) by lia. split; [exact Hc|].
      apply list_elem_of_further. exact Hin.
Qed.

(** X17: when every delete call comes back with a status other than
    204, every run of [delete_events] prints one
    [Could not delete ...] line per event and no [Deleted ...] line,
    and the line of each event carries that event's id and the status
    and text of its own response. *)
Theorem all_errors_all_reported fl events ids replies p :
  event_ids events = inl ids ->
  (forall i, exists code text, replies i = Status code text /\ code <> 204%Z) ->
  reachable fl ids replies p -> complete p = true ->
  length (List.filter is_failure (printed p)) = length events
  /\ List.filter is_deleted (printed p) = []
  /\ forall i event_id, ids !! i = Some event_id ->
       exists code text, replies i = Status code text
                         /\ CouldNotDelete event_id code text ∈ printed p.
Proof.
  intros Hids Herr Hr Hc.
  assert (Hnd : forall i, replies i <> Dropped).
  { intros i. destruct (Herr i) as (c & t & -> & _). discriminate. }
  destruct (reachable_lines _ _ _ _ Hnd Hr) as [_ Hp].
  rewrite (lines_seen_complete _ _ _ 0 ids Hc (reachable_length _ _ _ _ Hr)) in Hp.
  destruct (all_lines_failures fl replies ids 0 Herr) as (H1 & H2 & H3).
  split; [|split].
  - rewrite length_filter_sum, Hp, <- length_filter_sum, H1.
    apply event_ids_length, Hids.
  - apply filter_none. rewrite Hp.
    apply List.Forall_forall. intros l Hl.
    destruct (is_deleted l) eqn:E; [|reflexivity].
    assert (Hin : In l (List.filter is_deleted (all_lines fl replies 0 ids)))
      by (apply filter_In; auto).
    rewrite H2 in Hin. destruct Hin.
  - intros i x Hi. destruct (H3 i x Hi) as (c & t & Hc' & Hin).
    exists c, t. split; [exact Hc'|]. rewrite Hp. exact Hin.
Qed.

Lemma all_errors_all_reported_witness :
  length (List.filter is_failure [CouldNotDelete (JStr "A") 404 "Not Found"])
  = length [event "A"].
Proof.
  refine (proj1 (all_errors_all_reported Graph [event "A"] [JStr "A"] always_404
                   {| permits := 3; tasks := [Finished]; sent := [0];
                      printed := [CouldNotDelete (JStr "A") 404 "Not Found"];
                      failed := false |} _ _ _ _)).
  - reflexivity.
  - intros i. exists 404%Z, "Not Found"%string. split; [reflexivity|discriminate].
  - apply (play_reachable _ _ _ [Acquire 0; Respond 0; Wake 0]). reflexivity.
  - reflexivity.
Defined.

(** X18: [google_cleaner.py] never prints a line for a deleted event:
    in every state of every run, whatever the replies, all lines
    printed are [Could not delete ...] lines. *)
Theorem google_prints_failures_only ids replies p :
  reachable Google ids replies p ->
  Forall (fun l => is_failure l = true) (printed p).
Proof.
  unfold reachable. revert p.
  apply (rtc_ind_r (fun q => Forall (fun l => is_failure l = true) (printed q))).
  - constructor.
  - intros q q' _ [m Hm] IH.
    destruct m as [i|i|i|i]; fire_inv Hm; simpl in *; try assumption.
    apply Forall_app. split; [assumption|].
    unfold report. destruct (_ =? 204)%Z; repeat constructor.
Qed.

Lemma google_prints_failures_only_witness :
  Forall (fun l => is_failure l = true) (@nil line).
Proof.
  refine (google_prints_failures_only [JStr "A"] always_204
            {| permits := 3; tasks := [Finished]; sent := [0]; printed := []; failed := false |} _).
  apply (play_reachable _ _ _ [Acquire 0; Respond 0; Wake 0]). reflexivity.
Defined.

(** X19: the deletion block of [cleaner.py], for every batch: when no
    request raises, the ids that went to the delete endpoint are the
    ids of the batch in some order, from the coroutines, followed by
    the ids of the batch once more in enumeration order, from the
    blocking loop after the [gather]. *)
Theorem cleaner_log_is_batch_twice ids replies replies2 log :
  length replies2 = length ids ->
  Forall (fun r => r <> Dropped) replies2 ->
  cleaner_deletion ids replies replies2 log ->
  exists first, log = first ++ ids /\ first ≡ₚ ids.
Proof.
  intros Hl Hr (p & Hp & Hc & Hf & ->).
  rewrite (delete_in_turn_sends ids replies2 Hl Hr).
  exists (sent_ids ids p). split; [reflexivity|].
  apply (gather_sends_each_once _ _ _ _ Hp Hc Hf).
Qed.

Lemma cleaner_log_is_batch_twice_witness :
  exists first, [JStr "A"; JStr "A"] = first ++ [JStr "A"] /\ first ≡ₚ [JStr "A"].
Proof.
  apply (cleaner_log_is_batch_twice [JStr "A"] always_204 [Status 404 "Not Found"]).
  - reflexivity.
  - repeat constructor. discriminate.
  - exists {| permits := 3; tasks := [Finished]; sent := [0];
              printed := [Deleted (JStr "A")]; failed := false |}.
    split; [apply (play_reachable _ _ _ [Acquire 0; Respond 0; Wake 0]); reflexivity|].
    repeat split.
Defined.

(** X20: the blocking loop of [cleaner.py] sends its requests in the
    order of the events and stops at the first request that raises:
    the ids sent are an initial run of the batch, the whole batch when
    the loop returns, and up to and including the failing one when it
    raises. *)
Theorem loop_deletes_in_order ids : forall replies,
  length ids <= length replies ->
  let sent_loop := fst (fst (delete_in_turn ids replies)) in
  let ending := snd (delete_in_turn ids replies) in
  sent_loop `prefix_of` ids
  /\ (ending = Returned tt -> sent_loop = ids)
  /\ (forall e, ending = Raised e ->
        exists before event_id after,
          ids = before ++ event_id :: after /\ sent_loop = before ++ [event_id]).
Proof.
  induction ids as [|x ids IH]; intros replies Hlen; simpl.
  - split; [reflexivity|]. split; [reflexivity|]. intros e He. discriminate.
  - destruct replies as [|r replies]; [simpl in Hlen; lia|].
    destruct r as [code text|]; simpl.
    + specialize (IH replies ltac:(simpl in Hlen; lia)). simpl in IH.
      destruct (delete_in_turn ids replies) as [[s l] o]. simpl in *.
      destruct IH as (IH1 & IH2 & IH3). split; [|split].
      * apply prefix_cons. exact IH1.
      * intros Ho. rewrite (IH2 Ho). reflexivity.
      * intros e He. destruct (IH3 e He) as (b & y & a & -> & ->).
        exists (x :: b), y, a. split; reflexivity.
    + split; [apply prefix_cons, prefix_nil|]. split; [discriminate|].
      intros e _. exists [], x, ids. split; reflexivity.
Qed.

Lemma loop_deletes_in_order_witness :
  fst (fst (delete_in_turn [JStr "A"; JStr "B"; JStr "C"]
              [Status 204 ""; Dropped; Status 204 ""]))
  `prefix_of` [JStr "A"; JStr "B"; JStr "C"].
Proof.
  refine (proj1 (loop_deletes_in_order [JStr "A"; JStr "B"; JStr "C"]
                   [Status 204 ""; Dropped; Status 204 ""] _)).
  simpl. lia.
Defined.

(** X21: the list [[... event['id'] for event in events]] is built in
    full or not at all: it holds the [id] of every event, in order,
    exactly when every event has one; a single event without it fails
    the whole batch before any coroutine is created. *)
Theorem event_ids_all_or_nothing events ids :
  event_ids events = inl ids
  <-> Forall2 (fun event event_id => subscript event "id" = inl event_id) events ids.
Proof.
  revert ids. induction events as [|ev events IH]; intros ids; simpl.
  - split.
    + intros H. injection H as <-. constructor.
    + intros H. inversion H. reflexivity.
  - split.
    + intros H. destruct (subscript ev "id") as [i|] eqn:Hi; [|discriminate].
      destruct (event_ids events) as [l|]; [|discriminate].
      injection H as <-. constructor; [exact Hi|]. apply IH. reflexivity.
    + intros H. inversion H as [|? i ? l Hi Hrest]; subst.
      rewrite Hi. apply IH in Hrest. rewrite Hrest. reflexivity.
Qed.

(** ** Signing in *)

(** X22: an account in the cache whose silent acquisition yields no
    token ([acquire_token_silent] returns [None]). [acquire_token] of
    [msgraph_cleaner.py] then tests ["access_token" in result] on
    [None] and raises [TypeError], without trying the device flow and
    without saving the cache; [main] of [cleaner.py], which tests
    [if not result] first, goes through the device flow as if no
    account were cached. *)
Theorem stale_account_sign_in app :
  get_accounts app <> [] ->
  acquire_token_silent app = JNull ->
  msgraph_acquire_token app = (Raised TypeError, false)
  /\ cleaner_acquire_token app
     = cleaner_acquire_token
         {| get_accounts := []; acquire_token_silent := acquire_token_silent app;
            initiate_device_flow := initiate_device_flow app;
            acquire_token_by_device_flow := acquire_token_by_device_flow app |}.
Proof.
  intros Ha Hs. unfold msgraph_acquire_token, cleaner_acquire_token. simpl.
  destruct (get_accounts app) as [|acc accs]; [contradiction|].
  rewrite Hs. simpl. split; reflexivity.
Qed.

Lemma stale_account_sign_in_witness :
  msgraph_acquire_token sample_app_stale = (Raised TypeError, false)
  /\ cleaner_acquire_token sample_app_stale = (Returned (JStr "fresh_token"), true).
Proof.
  destruct (stale_account_sign_in sample_app_stale) as [H1 H2].
  - discriminate.
  - reflexivity.
  - split; [exact H1|]. rewrite H2. reflexivity.
Defined.

Lemma has_key_subscript key result token :
  has_key key result = inl true -> subscript result key = inl token ->
  exists fields, result = JObj fields /\ dict_lookup fields key = Some token
                 /\ truthy result = true.
Proof.
  intros Hk Hs. destruct result; try discriminate.
  simpl in Hs. destruct (dict_lookup fields key) as [v|] eqn:Hl; [|discriminate].
  injection Hs as ->. exists fields. split; [reflexivity|]. split; [exact Hl|].
  destruct fields; [discriminate|reflexivity].
Qed.

(** X23: whenever [acquire_token] of [msgraph_cleaner.py] returns a
    token, the sign-in of [cleaner.py] on the same library answers
    returns the same token; in both the token is the [access_token]
    entry of a dict, and the cache is saved. *)
Theorem msgraph_token_is_cleaner_token app token saved :
  msgraph_acquire_token app = (Returned token, saved) ->
  saved = true /\ cleaner_acquire_token app = (Returned token, true)
  /\ exists fields,
       dict_lookup fields "access_token" = Some token
       /\ (JObj fields = acquire_token_silent app
           \/ JObj fields = acquire_token_by_device_flow app).
Proof.
  unfold msgraph_acquire_token, cleaner_acquire_token. intros H.
  destruct (get_accounts app) as [|acc accs].
  - simpl. destruct (has_key "user_code" (initiate_device_flow app)) as [[|]|];
      try (simpl in H; discriminate).
    destruct (subscript (initiate_device_flow app) "message"); [|simpl in H; discriminate].
    destruct (has_key "access_token" (acquire_token_by_device_flow app)) as [[|]|] eqn:Hk;
      try (destruct (get_method _ _ _); discriminate); try discriminate.
    destruct (subscript (acquire_token_by_device_flow app) "access_token") as [t|] eqn:Hs;
      [|discriminate].
    injection H as <- <-.
    destruct (has_key_subscript _ _ _ Hk Hs) as (fields & Hf & Hl & _).
    split; [reflexivity|]. split; [reflexivity|]. exists fields. rewrite Hf. auto.
  - destruct (has_key "access_token" (acquire_token_silent app)) as [[|]|] eqn:Hk;
      try (destruct (get_method _ _ _); discriminate); try discriminate.
    destruct (subscript (acquire_token_silent app) "access_token") as [t|] eqn:Hs;
      [|discriminate].
    injection H as <- <-.
    destruct (has_key_subscript _ _ _ Hk Hs) as (fields & Hf & Hl & Ht).
    rewrite Ht, Hk, Hs.
    split; [reflexivity|]. split; [reflexivity|]. exists fields. rewrite Hf. auto.
Qed.

Lemma msgraph_token_is_cleaner_token_witness :
  cleaner_acquire_token sample_app_silent = (Returned (JStr "test_token"), true).
Proof.
  refine (proj1 (proj2 (msgraph_token_is_cleaner_token sample_app_silent
                          (JStr "test_token") true _))).
  reflexivity.
Defined.

(** X24: [authenticate] of [google_cleaner.py] and the token file. When
    it returns, a token file exists: either the one found, untouched,
    because it held valid credentials, which are the ones returned; or
    a new one holding the credentials returned (refreshed, or fresh
    from the sign-in flow). When it raises, the file is as it was. *)
Theorem authenticate_token_file
    (from_file : string -> credentials + exn) (to_json : credentials -> string)
    (refresh : credentials -> credentials + exn) (flow : credentials + exn)
    (file file' : option string) (o : outcome credentials) :
  authenticate from_file to_json refresh flow file = (o, file') ->
  match o with
  | Returned creds =>
      (file' = file /\ valid creds = true
       /\ exists text, file = Some text /\ from_file text = inl creds)
      \/ (file' = Some (to_json creds)
          /\ forall text c, file = Some text -> from_file text = inl c -> valid c = false)
  | _ => file' = file
  end.
Proof.
  unfold authenticate. intros H.
  destruct file as [text|].
  - destruct (from_file text) as [c|e] eqn:Hc.
    + destruct (valid c) eqn:Hv.
      * injection H as <- <-. left. split; [reflexivity|]. split; [exact Hv|]. eauto.
      * destruct (if expired c && refresh_token c then refresh c else flow) as [c'|e];
          injection H as <- <-; [|reflexivity].
        right. split; [reflexivity|]. intros t c0 Ht Hc0. injection Ht as <-.
        rewrite Hc in Hc0. injection Hc0 as <-. exact Hv.
    + injection H as <- <-. reflexivity.
  - destruct flow as [c'|e]; injection H as <- <-; [|reflexivity].
    right. split; [reflexivity|]. intros t c0 Ht. discriminate.
Qed.

Lemma authenticate_token_file_witness :
  (Some "{valid}" = Some "{expired}" /\ valid (sample_credentials true) = true
   /\ exists text, Some "{expired}" = Some text
                   /\ stale_token_file text = inl (sample_credentials true))
  \/ (Some "{valid}" = Some (sample_to_json (sample_credentials true))
      /\ forall text c, Some "{expired}" = Some text ->
           stale_token_file text = inl c -> valid c = false).
Proof.
  apply (authenticate_token_file stale_token_file sample_to_json sample_refresh
           (inr AuthException) (Some "{expired}") (Some "{valid}")
           (Returned (sample_credentials true))).
  reflexivity.
Defined.

Lemma find_calendar_first_match calendars : forall name calendar_id,
  find_calendar calendars name = Returned calendar_id ->
  (calendar_id = JStr "primary"
   /\ Forall (fun c => exists s, subscript c "summary" = inl s /\ equals_name s name = false)
        calendars)
  \/ exists before c after s,
       calendars = before ++ c :: after
       /\ Forall (fun c' => exists s', subscript c' "summary" = inl s'
                                       /\ equals_name s' name = false) before
       /\ subscript c "summary" = inl s /\ equals_name s name = true
       /\ subscript c "id" = inl calendar_id.
Proof.
  induction calendars as [|c calendars IH]; intros name cid H; simpl in H.
  - injection H as <-. left. split; [reflexivity|constructor].
  - destruct (subscript c "summary") as [s|] eqn:Hs; [|discriminate].
    destruct (equals_name s name) eqn:He.
    + destruct (subscript c "id") as [i|] eqn:Hi; [|discriminate].
      injection H as <-. right. exists [], c, calendars, s. simpl. auto 10.
    + destruct (IH _ _ H) as [[-> Hall]|(b & c0 & a & s0 & -> & Hb & H1 & H2 & H3)].
      * left. split; [reflexivity|]. constructor; eauto.
      * right. exists (c :: b), c0, a, s0. split; [reflexivity|].
        split; [constructor; eauto|]. auto.
Qed.

(** X25: [get_calendar_id] of [google_cleaner.py] returns the [id] of
    the first calendar in the list whose [summary] equals the name
    asked for, every calendar before it having another summary; when
    no calendar has that summary it returns ['primary']. *)
Theorem calendar_id_first_match calendar_list name calendar_id :
  get_calendar_id calendar_list name = Returned calendar_id ->
  exists items calendars,
    subscript calendar_list "items" = inl items /\ iterate items = inl calendars
    /\ ((calendar_id = JStr "primary"
         /\ Forall (fun c => exists s, subscript c "summary" = inl s
                                       /\ equals_name s name = false) calendars)
        \/ exists before c after s,
             calendars = before ++ c :: after
             /\ Forall (fun c' => exists s', subscript c' "summary" = inl s'
                                             /\ equals_name s' name = false) before
             /\ subscript c "summary" = inl s /\ equals_name s name = true
             /\ subscript c "id" = inl calendar_id).
Proof.
  unfold get_calendar_id. intros H.
  destruct (subscript calendar_list "items") as [items|] eqn:Hi; [|discriminate].
  destruct (iterate items) as [calendars|] eqn:Hc; [|discriminate].
  exists items, calendars. split; [reflexivity|]. split; [exact Hc|].
  apply find_calendar_first_match. exact H.
Qed.

Lemma calendar_id_first_match_witness :
  exists items calendars,
    subscript sample_calendars "items" = inl items /\ iterate items = inl calendars
    /\ ((JStr "work@group" = JStr "primary"
         /\ Forall (fun c => exists s, subscript c "summary" = inl s
                                       /\ equals_name s (Some "Work") = false) calendars)
        \/ exists before c after s,
             calendars = before ++ c :: after
             /\ Forall (fun c' => exists s', subscript c' "summary" = inl s'
                                             /\ equals_name s' (Some "Work") = false) before
             /\ subscript c "summary" = inl s /\ equals_name s (Some "Work") = true
             /\ subscript c "id" = inl (JStr "work@group")).
Proof.
  apply (calendar_id_first_match sample_calendars (Some "Work") (JStr "work@group")).
  reflexivity.
Defined.

(** X26: a listing whose replies all read as pages (a status that
    [raise_for_status] lets through, a JSON object, a [value] that can
    be iterated) never makes [fetch_events] exit or raise: it returns a
    batch, or asks for a further page. *)
Theorem well_formed_listing_never_fails script start_iso end_iso :
  forallb is_page script = true ->
  (exists batch, fetch_events script start_iso end_iso = Returned batch)
  \/ fetch_events script start_iso end_iso = Starved.
Proof. intros H. apply fetch_loop_pages_total. exact H. Qed.

Lemma well_formed_listing_never_fails_witness :
  (exists batch, fetch_events [full_page 2; last_page [event "C"]] "s" "e" = Returned batch)
  \/ fetch_events [full_page 2; last_page [event "C"]] "s" "e" = Starved.
Proof.
  apply (well_formed_listing_never_fails [full_page 2; last_page [event "C"]] "s" "e").
  reflexivity.
Defined.
